(** * UCP priority protocols: latency-driven lane selection

    A shallow embedding of [src/ucp/proto/proto_priority.c],
    [src/ucp/proto/proto_priority.h] and of the decorator macro
    [UCP_PRIORITY_PROTO_DECL].

    The routines of [proto_common.h] and [proto_debug.h] that the selection
    calls (lane lookup, lane performance, registration map, capability
    initialisation, reference counting of performance nodes) are not part of
    the embedded sources.  They are collected in the record [collaborators];
    every call made to one of them is appended to the [calls] log of the
    [world], so that statements about which calls a run makes, and how many
    references it takes and drops, are statements about that log. *)

From Stdlib Require Import ZArith Floats String.
From stdpp Require Import base option list gmap.

Local Open Scope Z_scope.

(** ** Scalar types *)

(** [ucs_status_t]: the codes the embedded sources name, and the other
    codes a collaborator may hand back, kept by their number. *)
Inductive ucs_status_t : Set :=
| UCS_OK
| UCS_ERR_NO_ELEM
| UCS_ERR_UNSUPPORTED
| UCS_ERR_NO_DEVICE
| UCS_ERR_OTHER (code : Z).

#[global] Instance ucs_status_t_eq_dec : EqDecision ucs_status_t.
Proof. solve_decision. Defined.

(** [ucp_lane_index_t] is a small unsigned integer, the two maps are
    bitmasks. *)
Abbreviation ucp_lane_index_t := (Z).
Abbreviation ucp_lane_map_t := (Z).
Abbreviation ucp_md_map_t := (Z).

(** Modelled from the spec: the lane category is an enumerated tag; its
    declaration is not in the sources, the selection only passes it on. *)
Abbreviation ucp_lane_type_t := (Z).

(** A C [double] is a binary64 float; [a > b] is the IEEE comparison, false
    as soon as one side is a NaN. *)
Abbreviation double := (float).
Definition double_gt (a b : double) : bool := PrimFloat.ltb b a.
Definition INFINITY : double := infinity.

(** [UCS_BIT(i)] is [1ul << i]. *)
Definition UCS_BIT (i : Z) : Z := Z.shiftl 1 i.

(** Population count of a bitmask. *)
Fixpoint popcount_pos (p : positive) : nat :=
  match p with
  | xH => 1
  | xO q => popcount_pos q
  | xI q => S (popcount_pos q)
  end.

Definition popcount (m : Z) : nat :=
  match m with
  | Zpos p => popcount_pos p
  | _ => 0
  end.

(** ** Performance data *)

(** Modelled from the spec: the lane performance tuple
    [ucp_proto_common_tl_perf_t] (its declaration is not in the sources) holds
    a latency, a bandwidth and a fixed overhead. *)
Record ucp_proto_common_tl_perf_t : Set := {
  latency : double;
  bandwidth : double;
  overhead : double
}.

(** A performance attribution node [ucp_proto_perf_node_t] is known by its
    address.  A pointer cell holds [Some n], or [None] when it was never
    assigned. *)
Abbreviation ucp_proto_perf_node_t := (positive).
Abbreviation perf_node_ptr := (option ucp_proto_perf_node_t).

(** ** Parameters and output blob *)

(** [ucp_proto_init_params_t]: the fields the priority code reads.  The
    [priv] and [priv_size] members are pointers to caller-owned cells; the
    cells themselves are the [priv] and [priv_size] fields of the [world]. *)
Record ucp_proto_init_params_t : Set := {
  proto_name : string;
  num_priority_lanes : Z
}.

Record ucp_proto_common_init_params_t : Set := {
  common_super : ucp_proto_init_params_t;
  exclude_map : ucp_lane_map_t
}.

(** [ucp_proto_priority_init_params_t] of [proto_priority.h]. *)
Record ucp_proto_priority_init_params_t : Set := {
  super : ucp_proto_common_init_params_t;
  tl_cap_flags : Z;
  lane_type : ucp_lane_type_t
}.

(** [ucp_proto_common_lane_priv_t] is declared outside the sources; its
    content is kept as an uninterpreted word. *)
Abbreviation ucp_proto_common_lane_priv_t := (Z).

(** [ucp_proto_priority_priv_t] of [proto_priority.h], members in
    declaration order. *)
Record ucp_proto_priority_priv_t : Set := {
  priv_super : ucp_proto_common_lane_priv_t;
  reg_md_map : ucp_md_map_t;
  lane_map : ucp_lane_map_t;
  num_lanes : ucp_lane_index_t
}.

(** ** The world: caller-owned cells and the log of collaborator calls *)

Inductive call : Set :=
| find_lanes_call (lt : ucp_lane_type_t) (flags max_lanes : Z)
    (exclude : ucp_lane_map_t)
| get_lane_perf_call (lane : ucp_lane_index_t) (status : ucs_status_t)
    (node : perf_node_ptr)
| reg_md_map_call (lanes : ucp_lane_map_t)
| perf_node_ref_call (node : perf_node_ptr)
| perf_node_deref_call (node : perf_node_ptr)
| init_caps_call (perf : option ucp_proto_common_tl_perf_t)
    (node : perf_node_ptr) (reg : ucp_md_map_t) (status : ucs_status_t)
| init_check_err_handling_call.

(** [priv] is the buffer [params->super.super.priv] points to and
    [priv_size] the cell [params->super.super.priv_size] points to; [None]
    is a cell nobody has written yet. *)
Record world : Set := {
  calls : list call;
  priv : option ucp_proto_priority_priv_t;
  priv_size : option Z
}.

Definition log (c : call) (w : world) : world :=
  {| calls := calls w ++ [c]; priv := priv w; priv_size := priv_size w |}.

Definition set_priv_size (n : Z) (w : world) : world :=
  {| calls := calls w; priv := priv w; priv_size := Some n |}.

(** ** Collaborators

    What the routines outside the sources return.  They read the endpoint
    configuration, which a configuration build does not change, so each is a
    function of its arguments. *)
Record collaborators : Set := {
  (** the lanes written to the [lanes] array; their number is the return
      value *)
  ucp_proto_common_find_lanes :
    ucp_proto_common_init_params_t -> ucp_lane_type_t -> Z -> Z ->
    ucp_lane_map_t -> list ucp_lane_index_t;
  (** status, the tuple written to [*perf] and the node written to
      [*perf_node_p] *)
  ucp_proto_common_get_lane_perf :
    ucp_proto_common_init_params_t -> ucp_lane_index_t ->
    ucs_status_t * ucp_proto_common_tl_perf_t * perf_node_ptr;
  ucp_proto_common_reg_md_map :
    ucp_proto_common_init_params_t -> ucp_lane_map_t -> ucp_md_map_t;
  ucp_proto_common_init_caps :
    ucp_proto_common_init_params_t -> option ucp_proto_common_tl_perf_t ->
    perf_node_ptr -> ucp_md_map_t -> ucs_status_t;
  ucp_proto_common_init_check_err_handling :
    ucp_proto_common_init_params_t -> bool;
  UCP_PROTO_MAX_LANES : Z;
  (** width in bits of [ucp_lane_map_t] *)
  ucp_lane_map_bits : Z;
  (** [sizeof(ucp_proto_priority_priv_t)] *)
  sizeof_ucp_proto_priority_priv_t : Z
}.

(** ** [ucp_proto_priority_init_priv] *)

Section Selection.

Variable E : collaborators.

(** The locals the scan loop updates.  [lanes_perf_nodes] is the array of
    node pointers, indexed by lane.  The array [lanes_perf] is written at the
    same index and only its [latency] member is read, right after the write,
    so the tuple is used where it is produced. *)
Record scan_state : Set := {
  min_latency : double;
  min_lat_lane_index : nat;
  lanes_perf_nodes : gmap ucp_lane_index_t ucp_proto_perf_node_t
}.

Definition scan_init : scan_state :=
  {| min_latency := INFINITY; min_lat_lane_index := 0%nat;
     lanes_perf_nodes := ∅ |}.

(** Writing a pointer into a slot of [lanes_perf_nodes]. *)
Definition store_node (lane : ucp_lane_index_t) (node : perf_node_ptr)
    (nodes : gmap ucp_lane_index_t ucp_proto_perf_node_t) :
    gmap ucp_lane_index_t ucp_proto_perf_node_t :=
  match node with
  | Some n => <[lane := n]> nodes
  | None => delete lane nodes
  end.

(** The first loop, from iteration [i] on, over the lanes still to visit.
    The result is [UCS_OK] when the loop ran to its end, and the status of
    the failed query when it returned from inside the body. *)
Fixpoint scan_lanes (params : ucp_proto_priority_init_params_t)
    (todo : list ucp_lane_index_t) (i : nat) (st : scan_state) (w : world)
    : ucs_status_t * scan_state * world :=
  match todo with
  | [] => (UCS_OK, st, w)
  | lane :: rest =>
      let '(status, lane_perf, node) :=
        ucp_proto_common_get_lane_perf E (super params) lane in
      let w1 := log (get_lane_perf_call lane status node) w in
      let nodes1 := store_node lane node (lanes_perf_nodes st) in
      if decide (status <> UCS_OK) then
        (status,
         {| min_latency := min_latency st;
            min_lat_lane_index := min_lat_lane_index st;
            lanes_perf_nodes := nodes1 |}, w1)
      else
        let st1 :=
          if double_gt (min_latency st) (latency lane_perf) then
            {| min_latency := latency lane_perf;
               min_lat_lane_index := i;
               lanes_perf_nodes := nodes1 |}
          else
            {| min_latency := min_latency st;
               min_lat_lane_index := min_lat_lane_index st;
               lanes_perf_nodes := nodes1 |} in
        scan_lanes params rest (S i) st1 w1
  end.

(** The second loop: one [ucp_proto_perf_node_deref] per entry of [lanes],
    on the slot of that lane. *)
Fixpoint deref_lanes (nodes : gmap ucp_lane_index_t ucp_proto_perf_node_t)
    (todo : list ucp_lane_index_t) (w : world) : world :=
  match todo with
  | [] => w
  | lane :: rest =>
      deref_lanes nodes rest (log (perf_node_deref_call (nodes !! lane)) w)
  end.

(** [lanes[i]] *)
Definition lane_at (lanes : list ucp_lane_index_t) (i : nat)
    : ucp_lane_index_t := lanes !!! i.

(** [UCS_BIT(lane)] stored into a [ucp_lane_map_t]. *)
Definition lane_bit (lane : ucp_lane_index_t) : ucp_lane_map_t :=
  UCS_BIT lane mod 2 ^ ucp_lane_map_bits E.

(** The function never assigns through [priv], and the local [perf] is
    passed to [ucp_proto_common_init_caps] without having been assigned
    ([None]). *)
Definition ucp_proto_priority_init_priv
    (params : ucp_proto_priority_init_params_t) (w : world)
    : ucs_status_t * world :=
  let lanes :=
    ucp_proto_common_find_lanes E (super params) (lane_type params)
      (tl_cap_flags params) (UCP_PROTO_MAX_LANES E)
      (exclude_map (super params)) in
  let w0 :=
    log (find_lanes_call (lane_type params) (tl_cap_flags params)
           (UCP_PROTO_MAX_LANES E) (exclude_map (super params))) w in
  if decide (length lanes = 0%nat) then (UCS_ERR_NO_ELEM, w0)
  else
    let '(status, st, w1) := scan_lanes params lanes 0 scan_init w0 in
    if decide (status <> UCS_OK) then (status, w1)
    else
      let lane_map := lane_bit (lane_at lanes (min_lat_lane_index st)) in
      let reg_md_map :=
        ucp_proto_common_reg_md_map E (super params) lane_map in
      let w2 := log (reg_md_map_call lane_map) w1 in
      let perf_node :=
        lanes_perf_nodes st !! lane_at lanes (min_lat_lane_index st) in
      let w3 := log (perf_node_ref_call perf_node) w2 in
      let status :=
        ucp_proto_common_init_caps E (super params) None perf_node
          reg_md_map in
      let w4 := log (init_caps_call None perf_node reg_md_map status) w3 in
      let w5 := deref_lanes (lanes_perf_nodes st) lanes w4 in
      let w6 := log (perf_node_deref_call perf_node) w5 in
      (status, w6).

(** ** [ucp_proto_priority_init] *)

Definition ucp_proto_priority_init
    (params : ucp_proto_priority_init_params_t) (w : world)
    : ucs_status_t * world :=
  let w0 := log init_check_err_handling_call w in
  if negb (ucp_proto_common_init_check_err_handling E (super params)) then
    (UCS_ERR_UNSUPPORTED, w0)
  else if decide (num_priority_lanes (common_super (super params)) = 0) then
    (UCS_OK, w0)
  else
    let '(status, w1) := ucp_proto_priority_init_priv params w0 in
    if decide (status <> UCS_OK) then (status, w1)
    else (UCS_OK, set_priv_size (sizeof_ucp_proto_priority_priv_t E) w1).

(** What the scan computes, read off a run: the index, in the candidate
    list, of the lane whose bit is put into the lane map. *)
Definition selected_index (params : ucp_proto_priority_init_params_t)
    (lanes : list ucp_lane_index_t) : nat :=
  min_lat_lane_index (scan_lanes params lanes 0 scan_init
    {| calls := []; priv := None; priv_size := None |}).1.2.

End Selection.

(** ** The order of C doubles

    The comparison of two doubles that are not NaN is the lexicographic
    order of (class, exponent, mantissa), with exponent and mantissa negated
    for negative numbers.  The facts the selection needs follow from that. *)

Definition sf_rank (f : spec_float) : Z * Z * Z :=
  match f with
  | S754_infinity true => (-2, 0, 0)
  | S754_finite true m e => (-1, - e, Z.neg m)
  | S754_zero _ => (0, 0, 0)
  | S754_nan => (0, 0, 0)
  | S754_finite false m e => (1, e, Z.pos m)
  | S754_infinity false => (2, 0, 0)
  end.

Definition rank_lt (a b : Z * Z * Z) : Prop :=
  a.1.1 < b.1.1 \/
  (a.1.1 = b.1.1 /\ (a.1.2 < b.1.2 \/ (a.1.2 = b.1.2 /\ a.2 < b.2))).

Definition is_number (x : double) : Prop := PrimFloat.is_nan x = false.


(** ** The decorator macro [UCP_PRIORITY_PROTO_DECL]

    A macro is a function from its argument to program text.  Its
    replacement list is embedded as the tokens the preprocessor leaves once
    [_proto] is substituted and the [##] operators have pasted their
    operands; whether that text defines anything is then a question about
    the tokens.  The list holds three external definitions one after the
    other: the function [_proto ## _priority_init], the function
    [_proto ## _priority_query] and the descriptor [_proto ## __priority]. *)

Inductive punctuator : Set :=
| LPAREN | RPAREN | LBRACE | RBRACE | DOT | STAR | COMMA | SEMICOLON
| ASSIGN | NOT_EQUAL | BAR.

#[global] Instance punctuator_eq_dec : EqDecision punctuator.
Proof. solve_decision. Defined.

Inductive token : Set :=
| keyword (k : string)
| identifier (s : string)
| punct (p : punctuator).

(** Lines 15 to 24 of the macro. *)
Definition priority_init_text (_proto : string) : list token :=
  [keyword "static"; identifier "ucs_status_t";
   identifier (_proto ++ "_priority_init"); punct LPAREN;
   keyword "const"; identifier "ucp_proto_init_params_t"; punct STAR;
   identifier "init_params"; punct RPAREN;
   punct LBRACE;
   identifier "ucs_status_t"; identifier "status"; punct SEMICOLON;
   identifier "status"; punct ASSIGN; identifier _proto; punct DOT;
   identifier "init"; punct LPAREN; identifier "init_params"; punct RPAREN;
   punct SEMICOLON;
   keyword "if"; punct LPAREN; identifier "status"; punct NOT_EQUAL;
   identifier "UCS_OK"; punct RPAREN; punct LBRACE;
   keyword "return"; identifier "status"; punct SEMICOLON;
   punct RBRACE;
   keyword "return"; identifier "ucp_proto_priority_init"; punct LPAREN;
   identifier "init_params"; punct RPAREN; punct SEMICOLON;
   punct RBRACE].

(** Lines 25 to 30 of the macro. *)
Definition priority_query_text (_proto : string) : list token :=
  [keyword "void"; identifier (_proto ++ "_priority_query"); punct LPAREN;
   keyword "const"; identifier "ucp_proto_query_params_t"; punct STAR;
   identifier "params"; punct COMMA;
   identifier "ucp_proto_query_attr_t"; punct STAR; identifier "attr";
   punct RPAREN;
   punct LBRACE;
   identifier _proto; punct DOT; identifier "query"; punct LPAREN;
   identifier "params"; punct COMMA; identifier "attr"; punct RPAREN;
   punct SEMICOLON;
   identifier "ucp_proto_priority_query"; punct LPAREN;
   identifier "params"; punct COMMA; identifier "attr"; punct RPAREN;
   punct SEMICOLON;
   punct RBRACE].

(** Lines 31 to 41 of the macro: the type name and the declarator are
    followed at once by the opening brace. *)
Definition priority_descriptor_text (_proto : string) : list token :=
  [identifier "ucp_proto_t"; identifier (_proto ++ "__priority");
   punct LBRACE;
   punct DOT; identifier "name"; punct ASSIGN;
   identifier _proto; punct DOT; identifier "name"; punct COMMA;
   punct DOT; identifier "desc"; punct ASSIGN;
   identifier _proto; punct DOT; identifier "desc"; punct COMMA;
   punct DOT; identifier "flags"; punct ASSIGN;
   identifier _proto; punct DOT; identifier "flags"; punct BAR;
   identifier "UCP_PROTO_FLAG_PRIORITY"; punct COMMA;
   punct DOT; identifier "init"; punct ASSIGN;
   identifier (_proto ++ "_priority_init"); punct COMMA;
   punct DOT; identifier "query"; punct ASSIGN;
   identifier (_proto ++ "_priority_query"); punct COMMA;
   punct DOT; identifier "progress"; punct ASSIGN;
   identifier _proto; punct DOT; identifier "progress"; punct COMMA;
   punct DOT; identifier "abort"; punct ASSIGN;
   identifier _proto; punct DOT; identifier "abort"; punct COMMA;
   punct DOT; identifier "reset"; punct ASSIGN;
   identifier _proto; punct DOT; identifier "reset";
   punct RBRACE].

(** The three external definitions of the replacement list, in order. *)
Definition UCP_PRIORITY_PROTO_DECL (_proto : string) : list (list token) :=
  [priority_init_text _proto; priority_query_text _proto;
   priority_descriptor_text _proto].

(** *** External definitions of C

    The part of the C grammar that decides what such a text defines (ISO C,
    "Declarations" and "External definitions"), for declaration specifiers
    that are keywords and type names and a declarator that is an identifier
    or an identifier with a parameter list:

    - [specifiers declarator] declares an object;
    - [specifiers declarator = { .member = expression, ... }] defines an
      object with an initialiser (an init-declarator is a declarator, or a
      declarator, [=] and an initialiser);
    - [specifiers declarator ( parameters ) { body }] defines a function: a
      brace follows a declarator only as the body of a function, after the
      parameter list. *)

Definition is_word (t : token) : bool :=
  match t with
  | punct _ => false
  | _ => true
  end.

Definition is_punct (p : punctuator) (t : token) : bool :=
  match t with
  | punct q => bool_decide (p = q)
  | _ => false
  end.

(** The keywords and identifiers a text starts with, and what follows. *)
Fixpoint leading_words (ts : list token) : list token * list token :=
  match ts with
  | [] => ([], [])
  | t :: r =>
      if is_word t then
        let '(ws, rest) := leading_words r in (t :: ws, rest)
      else ([], ts)
  end.

(** The last word is the declared identifier; the words before it, at
    least one, are the declaration specifiers. *)
Fixpoint specifiers_and_name (ws : list token)
    : option (list token * string) :=
  match ws with
  | s :: ((_ :: _) as r) =>
      match r with
      | [identifier x] => Some ([s], x)
      | _ =>
          match specifiers_and_name r with
          | Some (ss, x) => Some (s :: ss, x)
          | None => None
          end
      end
  | _ => None
  end.

(** The tokens up to the bracket that closes a group already opened, and the
    tokens after it; [depth] counts the groups opened inside. *)
Fixpoint group (opening closing : punctuator) (depth : nat)
    (ts : list token) : option (list token * list token) :=
  match ts with
  | [] => None
  | t :: r =>
      if is_punct closing t then
        match depth with
        | O => Some ([], r)
        | S d =>
            match group opening closing d r with
            | Some (g, rest) => Some (t :: g, rest)
            | None => None
            end
        end
      else
        match group opening closing
                (if is_punct opening t then S depth else depth) r with
        | Some (g, rest) => Some (t :: g, rest)
        | None => None
        end
  end.

(** [.member = value], one item of an initialiser list. *)
Record designation : Set := {
  member : string;
  value : list token
}.

(** The items of a list separated by commas.  The items of the lists read
    here hold no comma, brace or parenthesis of their own. *)
Fixpoint split_commas (ts : list token) : list (list token) :=
  match ts with
  | [] => [[]]
  | t :: r =>
      if is_punct COMMA t then [] :: split_commas r
      else
        match split_commas r with
        | e :: es => (t :: e) :: es
        | [] => [[t]]
        end
  end.

Definition designated (item : list token) : option designation :=
  match item with
  | punct DOT :: identifier m :: punct ASSIGN :: (_ :: _) as v =>
      Some {| member := m; value := v |}
  | _ => None
  end.

Fixpoint designations (items : list (list token))
    : option (list designation) :=
  match items with
  | [] => Some []
  | item :: r =>
      match designated item, designations r with
      | Some d, Some ds => Some (d :: ds)
      | _, _ => None
      end
  end.

(** [{ .member = value, ... }] and nothing after it. *)
Definition braced_initializer (ts : list token)
    : option (list designation) :=
  match ts with
  | punct LBRACE :: r =>
      match group LBRACE RBRACE 0 r with
      | Some (items, []) => designations (split_commas items)
      | _ => None
      end
  | _ => None
  end.

Inductive external_definition : Set :=
| function_definition (specifiers : list token) (name : string)
    (parameters body : list token)
| object_definition (specifiers : list token) (name : string)
    (init : option (list designation)).

Definition defined_name (d : external_definition) : string :=
  match d with
  | function_definition _ x _ _ => x
  | object_definition _ x _ => x
  end.

(** What a text defines, if it is an external definition of one of the
    three forms. *)
Definition parse_external_definition (ts : list token)
    : option external_definition :=
  let '(words, rest) := leading_words ts in
  match specifiers_and_name words with
  | None => None
  | Some (specifiers, x) =>
      match rest with
      | [] => Some (object_definition specifiers x None)
      | punct ASSIGN :: i =>
          match braced_initializer i with
          | Some ds => Some (object_definition specifiers x (Some ds))
          | None => None
          end
      | punct LPAREN :: r =>
          match group LPAREN RPAREN 0 r with
          | Some (parameters, punct LBRACE :: r') =>
              match group LBRACE RBRACE 0 r' with
              | Some (body, []) =>
                  Some (function_definition specifiers x parameters body)
              | _ => None
              end
          | _ => None
          end
      | _ => None
      end
  end.

(** The identifier a text defines, if it defines one. *)
Definition defines (ts : list token) : option string :=
  match parse_external_definition ts with
  | Some d => Some (defined_name d)
  | None => None
  end.

(** The text with the [=] of an init-declarator put between the declarator
    and what follows it. *)
Definition with_assign (ts : list token) : list token :=
  let '(words, rest) := leading_words ts in words ++ punct ASSIGN :: rest.

(** [_proto.member] *)
Definition member_of (_proto m : string) : list token :=
  [identifier _proto; punct DOT; identifier m].

(** ** Reading a run off the log *)

Definition log_all (cs : list call) (w : world) : world :=
  {| calls := calls w ++ cs; priv := priv w; priv_size := priv_size w |}.

(** The calls made between two worlds of one run. *)
Definition calls_since (w w' : world) : list call :=
  drop (length (calls w)) (calls w').

(** Modelled from the spec: a successful query of the Performance Model
    Provider hands its caller one reference on the node it returns;
    [ucp_proto_perf_node_ref] takes one more and [ucp_proto_perf_node_deref]
    drops one.  On a null pointer none of them does anything. *)
Definition acquires (c : call) : nat :=
  match c with
  | get_lane_perf_call _ UCS_OK (Some _) => 1
  | perf_node_ref_call (Some _) => 1
  | _ => 0
  end.

Definition releases (c : call) : nat :=
  match c with
  | perf_node_deref_call (Some _) => 1
  | _ => 0
  end.

Definition acquisitions (cs : list call) : nat := sum_list_with acquires cs.
Definition releasings (cs : list call) : nat := sum_list_with releases cs.

(** The running minimum of the scan loop on the latencies alone: the pair
    ([min_latency], [min_lat_lane_index]) after the iterations [i], [i+1],
    ... over [lats]. *)
Fixpoint argmin_scan (lats : list double) (i : nat) (acc : double * nat)
    : double * nat :=
  match lats with
  | [] => acc
  | x :: rest =>
      argmin_scan rest (S i) (if double_gt acc.1 x then (x, i) else acc)
  end.

(** The loop invariant over the latencies [visited] so far, all numbers:
    nothing visited is below the running minimum, everything before the
    recorded index is above it, and the minimum is the latency at the
    recorded index unless it is still the initial [INFINITY]. *)
Definition scan_inv (visited : list double) (acc : double * nat) : Prop :=
  is_number acc.1 /\
  (forall j x, visited !! j = Some x -> PrimFloat.ltb x acc.1 = false) /\
  (forall j x, (j < acc.2)%nat -> visited !! j = Some x ->
     PrimFloat.ltb acc.1 x = true) /\
  (visited !! acc.2 = Some acc.1 \/ (acc.2 = 0%nat /\ acc.1 = INFINITY)).

Section Provider.

Variable E : collaborators.
Variable params : ucp_proto_priority_init_params_t.

Definition lane_status (l : ucp_lane_index_t) : ucs_status_t :=
  (ucp_proto_common_get_lane_perf E (super params) l).1.1.
Definition lane_latency (l : ucp_lane_index_t) : double :=
  latency (ucp_proto_common_get_lane_perf E (super params) l).1.2.
Definition lane_node (l : ucp_lane_index_t) : perf_node_ptr :=
  (ucp_proto_common_get_lane_perf E (super params) l).2.

(** The candidates of a run. *)
Definition candidates : list ucp_lane_index_t :=
  ucp_proto_common_find_lanes E (super params) (lane_type params)
    (tl_cap_flags params) (UCP_PROTO_MAX_LANES E)
    (exclude_map (super params)).

Definition the_find_lanes_call : call :=
  find_lanes_call (lane_type params) (tl_cap_flags params)
    (UCP_PROTO_MAX_LANES E) (exclude_map (super params)).

Definition query_call (l : ucp_lane_index_t) : call :=
  get_lane_perf_call l (lane_status l) (lane_node l).

(** The queries of the scan loop: one per lane, up to and including the
    first one that fails. *)
Fixpoint query_calls (todo : list ucp_lane_index_t) : list call :=
  match todo with
  | [] => []
  | l :: rest =>
      query_call l ::
      (if decide (lane_status l <> UCS_OK) then [] else query_calls rest)
  end.

(** The slots of [lanes_perf_nodes] after the lanes [todo] were stored. *)
Definition stored_nodes (todo : list ucp_lane_index_t)
    (nodes : gmap ucp_lane_index_t ucp_proto_perf_node_t)
    : gmap ucp_lane_index_t ucp_proto_perf_node_t :=
  foldl (fun m l => store_node l (lane_node l) m) nodes todo.

(** The aggregator's answer when lane [l] is the selected one. *)
Definition caps_status (l : ucp_lane_index_t) : ucs_status_t :=
  ucp_proto_common_init_caps E (super params) None (lane_node l)
    (ucp_proto_common_reg_md_map E (super params) (lane_bit E l)).

(** The calls of a run that selects lane [l], in order: the lookup, one
    query per candidate, the registration map, the extra reference on the
    selected node, the aggregator, one release per candidate and the release
    of the extra reference. *)
Definition selection_calls (l : ucp_lane_index_t) : list call :=
  the_find_lanes_call ::
  (query_call <$> candidates) ++
  [reg_md_map_call (lane_bit E l);
   perf_node_ref_call (lane_node l);
   init_caps_call None (lane_node l)
     (ucp_proto_common_reg_md_map E (super params) (lane_bit E l))
     (caps_status l)] ++
  ((fun k => perf_node_deref_call (lane_node k)) <$> candidates) ++
  [perf_node_deref_call (lane_node l)].

End Provider.

(** ** Sample configurations *)

(** A configuration given by its candidate lanes, the provider's answer per
    lane, the aggregator's status and the error-handling predicate.  A
    successful query of lane [l] returns node number [l + 1], a failed one
    no node; the registration map of a lane map is that map. *)
Definition sample_config (lanes : list ucp_lane_index_t)
    (perf : ucp_lane_index_t -> ucs_status_t * double)
    (caps : ucs_status_t) (err_handling : bool) : collaborators :=
  {| ucp_proto_common_find_lanes := fun _ _ _ _ _ => lanes;
     ucp_proto_common_get_lane_perf := fun _ l =>
       ((perf l).1,
        {| latency := (perf l).2; bandwidth := 1%float;
           overhead := 0%float |},
        if decide ((perf l).1 = UCS_OK) then Some (Z.to_pos (l + 1))
        else None);
     ucp_proto_common_reg_md_map := fun _ m => m;
     ucp_proto_common_init_caps := fun _ _ _ _ => caps;
     ucp_proto_common_init_check_err_handling := fun _ => err_handling;
     UCP_PROTO_MAX_LANES := 16;
     ucp_lane_map_bits := 64;
     sizeof_ucp_proto_priority_priv_t := 24 |}.

Definition sample_params (priority_lanes : Z)
    : ucp_proto_priority_init_params_t :=
  {| super := {| common_super := {| proto_name := "sample";
                                    num_priority_lanes := priority_lanes |};
                 exclude_map := 0 |};
     tl_cap_flags := 0;
     lane_type := 0 |}.

Definition fresh_world : world :=
  {| calls := []; priv := None; priv_size := None |}.

(** Latencies 120, 45, 80 on the lanes 0, 1, 2. *)
Definition perf_120_45_80 (l : ucp_lane_index_t) : ucs_status_t * double :=
  (UCS_OK,
   if l =? 0 then 120%float else if l =? 1 then 45%float else 80%float).

(** The provider fails on lane 1. *)
Definition perf_fail_second (l : ucp_lane_index_t) : ucs_status_t * double :=
  (if l =? 1 then UCS_ERR_NO_DEVICE else UCS_OK, 120%float).

(** Latencies 80, 45, 45 on the lanes 0, 1, 2: lanes 1 and 2 tie. *)
Definition perf_80_45_45 (l : ucp_lane_index_t) : ucs_status_t * double :=
  (UCS_OK, if l =? 0 then 80%float else 45%float).

(** A NaN on lane 0 and [INFINITY] on every other lane. *)
Definition perf_nan_inf (l : ucp_lane_index_t) : ucs_status_t * double :=
  (UCS_OK, if l =? 0 then nan else INFINITY).

(** ** Further definitions for the selection *)

(** The loop invariant of the scan with no assumption on the latencies
    [visited] so far: the running minimum is a number, nothing visited is
    below it, every number before the recorded index is above it, and the
    minimum is the latency at the recorded index unless it is still the
    initial [INFINITY]. *)
Definition scan_inv_any (visited : list double) (acc : double * nat) : Prop :=
  is_number acc.1 /\
  (forall j x, visited !! j = Some x -> PrimFloat.ltb x acc.1 = false) /\
  (forall j x, (j < acc.2)%nat -> visited !! j = Some x -> is_number x ->
     PrimFloat.ltb acc.1 x = true) /\
  (visited !! acc.2 = Some acc.1 \/ (acc.2 = 0%nat /\ acc.1 = INFINITY)).

(** Latencies NaN, 80, NaN, 45, 45 on the lanes 0 to 4. *)
Definition perf_nan_80_nan_45_45 (l : ucp_lane_index_t)
    : ucs_status_t * double :=
  (UCS_OK,
   if l =? 0 then nan else if l =? 1 then 80%float
   else if l =? 2 then nan else 45%float).

(** ** The copy routine of the performance tests

    [ucx_get_perf_memcpy] and [ucx_perf_cuda_init] of the libperf sources.
    [HAVE_CUDA] and [HAVE_ROCM] are build switches. *)

(** [ucs_memory_type_t]: the members the routine names; the other members
    of the enumeration are kept by their number. *)
Inductive ucs_memory_type_t : Set :=
| UCS_MEMORY_TYPE_HOST
| UCS_MEMORY_TYPE_CUDA
| UCS_MEMORY_TYPE_CUDA_MANAGED
| UCS_MEMORY_TYPE_ROCM
| UCS_MEMORY_TYPE_ROCM_MANAGED
| UCS_MEMORY_TYPE_RDMA
| UCS_MEMORY_TYPE_OTHER (code : Z).

#[global] Instance ucs_memory_type_t_eq_dec : EqDecision ucs_memory_type_t.
Proof. solve_decision. Defined.

(** The values a [memcpy_func_t] takes here. *)
Inductive memcpy_func_t : Set :=
| memcpy
| ucx_perf_cuda_memcpy
| ucx_perf_rocm_memcpy
| memcpy_func_NULL.

(** What the routine does besides returning: initialise a device, or log an
    error. *)
Inductive perf_memcpy_call : Set :=
| ucx_perf_cuda_init_call
| ucx_perf_rocm_init_call
| ucs_error_call (mem_type : ucs_memory_type_t).

Record perf_build : Set := {
  HAVE_CUDA : bool;
  HAVE_ROCM : bool
}.

(** The first statement: the memory type that decides. *)
Definition perf_memcpy_mem_type (send_mem_type recv_mem_type
    : ucs_memory_type_t) : ucs_memory_type_t :=
  if decide (send_mem_type = recv_mem_type) then send_mem_type
  else if decide (send_mem_type <> UCS_MEMORY_TYPE_HOST) then send_mem_type
  else recv_mem_type.

Definition ucx_get_perf_memcpy (build : perf_build)
    (send_mem_type recv_mem_type : ucs_memory_type_t)
    : memcpy_func_t * list perf_memcpy_call :=
  let mem_type := perf_memcpy_mem_type send_mem_type recv_mem_type in
  match mem_type with
  | UCS_MEMORY_TYPE_RDMA | UCS_MEMORY_TYPE_HOST => (memcpy, [])
  | UCS_MEMORY_TYPE_CUDA | UCS_MEMORY_TYPE_CUDA_MANAGED =>
      if HAVE_CUDA build
      then (ucx_perf_cuda_memcpy, [ucx_perf_cuda_init_call])
      else (memcpy_func_NULL, [ucs_error_call mem_type])
  | UCS_MEMORY_TYPE_ROCM | UCS_MEMORY_TYPE_ROCM_MANAGED =>
      if HAVE_ROCM build
      then (ucx_perf_rocm_memcpy, [ucx_perf_rocm_init_call])
      else (memcpy_func_NULL, [ucs_error_call mem_type])
  | UCS_MEMORY_TYPE_OTHER _ =>
      (memcpy_func_NULL, [ucs_error_call mem_type])
  end.

(** ** CPU model detection on x86-64

    [ucs_arch_get_cpu_model] of the x86-64 CPU sources.  What the [cpuid]
    instruction and [ucs_arch_get_cpu_vendor] answer is an input. *)

Inductive ucs_cpu_model_t : Set :=
| UCS_CPU_MODEL_UNKNOWN
| UCS_CPU_MODEL_INTEL_IVYBRIDGE
| UCS_CPU_MODEL_INTEL_SANDYBRIDGE
| UCS_CPU_MODEL_INTEL_NEHALEM
| UCS_CPU_MODEL_INTEL_WESTMERE
| UCS_CPU_MODEL_INTEL_HASWELL
| UCS_CPU_MODEL_INTEL_BROADWELL
| UCS_CPU_MODEL_INTEL_SKYLAKE
| UCS_CPU_MODEL_INTEL_ICELAKE
| UCS_CPU_MODEL_AMD_NAPLES
| UCS_CPU_MODEL_AMD_ROME
| UCS_CPU_MODEL_AMD_MILAN
| UCS_CPU_MODEL_AMD_GENOA
| UCS_CPU_MODEL_AMD_TURIN
| UCS_CPU_MODEL_ZHAOXIN_ZHANGJIANG
| UCS_CPU_MODEL_ZHAOXIN_WUDAOKOU
| UCS_CPU_MODEL_ZHAOXIN_LUJIAZUI
| UCS_CPU_MODEL_LAST.

#[global] Instance ucs_cpu_model_t_eq_dec : EqDecision ucs_cpu_model_t.
Proof. solve_decision. Defined.

Inductive ucs_cpu_vendor_t : Set :=
| UCS_CPU_VENDOR_UNKNOWN
| UCS_CPU_VENDOR_INTEL
| UCS_CPU_VENDOR_AMD
| UCS_CPU_VENDOR_ZHAOXIN.

#[global] Instance ucs_cpu_vendor_t_eq_dec : EqDecision ucs_cpu_vendor_t.
Proof. solve_decision. Defined.

(** The bit-fields of [ucs_x86_cpu_version_t], read from the 32-bit [reg]
    (first field in the lowest bits). *)
Definition bit_field (reg : Z) (pos width : Z) : Z :=
  Z.land (Z.shiftr reg pos) (Z.ones width).

Definition version_stepping (reg : Z) : Z := bit_field reg 0 4.
Definition version_model (reg : Z) : Z := bit_field reg 4 4.
Definition version_family (reg : Z) : Z := bit_field reg 8 4.
Definition version_type (reg : Z) : Z := bit_field reg 12 2.
Definition version_ext_model (reg : Z) : Z := bit_field reg 16 4.
Definition version_ext_family (reg : Z) : Z := bit_field reg 20 8.

(** "Adjust family/model" *)
Definition adjusted_family (reg : Z) : Z :=
  if version_family reg =? 0xf
  then version_family reg + version_ext_family reg
  else version_family reg.

Definition adjusted_model (reg : Z) : Z :=
  let family := adjusted_family reg in
  if (family =? 0x6) || (family =? 0x7) || (family =? 0xf) ||
     (family =? 0x17) || (family =? 0x19)
  then Z.lor (Z.shiftl (version_ext_model reg) 4) (version_model reg)
  else version_model reg.

(** The two [switch] cascades, on the adjusted family and model. *)
Definition cpu_model_of (vendor : ucs_cpu_vendor_t) (family model : Z)
    : ucs_cpu_model_t :=
  if decide (vendor = UCS_CPU_VENDOR_ZHAOXIN) then
    let m1 :=
      if family =? 0x06 then
        if model =? 0x0f then UCS_CPU_MODEL_ZHAOXIN_ZHANGJIANG
        else UCS_CPU_MODEL_UNKNOWN
      else UCS_CPU_MODEL_UNKNOWN in
    if family =? 0x07 then
      if model =? 0x1b then UCS_CPU_MODEL_ZHAOXIN_WUDAOKOU
      else if model =? 0x3b then UCS_CPU_MODEL_ZHAOXIN_LUJIAZUI
      else m1
    else m1
  else if family =? 0x06 then
    if (model =? 0x3a) || (model =? 0x3e) then UCS_CPU_MODEL_INTEL_IVYBRIDGE
    else if (model =? 0x2a) || (model =? 0x2d)
    then UCS_CPU_MODEL_INTEL_SANDYBRIDGE
    else if (model =? 0x1a) || (model =? 0x1e) || (model =? 0x1f) ||
            (model =? 0x2e)
    then UCS_CPU_MODEL_INTEL_NEHALEM
    else if (model =? 0x25) || (model =? 0x2c) || (model =? 0x2f)
    then UCS_CPU_MODEL_INTEL_WESTMERE
    else if (model =? 0x3c) || (model =? 0x3f) || (model =? 0x45) ||
            (model =? 0x46)
    then UCS_CPU_MODEL_INTEL_HASWELL
    else if (model =? 0x3d) || (model =? 0x47) || (model =? 0x4f) ||
            (model =? 0x56)
    then UCS_CPU_MODEL_INTEL_BROADWELL
    else if (model =? 0x5e) || (model =? 0x4e) || (model =? 0x55)
    then UCS_CPU_MODEL_INTEL_SKYLAKE
    else if (model =? 0x6a) || (model =? 0x6c) || (model =? 0x7e)
    then UCS_CPU_MODEL_INTEL_ICELAKE
    else UCS_CPU_MODEL_UNKNOWN
  else if family =? 0x17 then
    if model =? 0x29 then UCS_CPU_MODEL_AMD_NAPLES
    else if model =? 0x31 then UCS_CPU_MODEL_AMD_ROME
    else UCS_CPU_MODEL_UNKNOWN
  else if family =? 0x19 then
    if (model =? 0x00) || (model =? 0x01) then UCS_CPU_MODEL_AMD_MILAN
    else if (model =? 0x11) || (model =? 0x90) then UCS_CPU_MODEL_AMD_GENOA
    else UCS_CPU_MODEL_UNKNOWN
  else if family =? 0x1a then
    if (model <=? 0x2f) || ((model >=? 0x40) && (model <=? 0x4f)) ||
       ((model >=? 0x60) && (model <=? 0x7f))
    then UCS_CPU_MODEL_AMD_TURIN
    else UCS_CPU_MODEL_UNKNOWN
  else UCS_CPU_MODEL_UNKNOWN.

(** The function with its static variable [cpu_model] made explicit: the
    argument [cached] is its value before the call, the second component of
    the result its value after.  [version_reg] is the [eax] that [cpuid]
    returns for [X86_CPUID_GET_MODEL] and [vendor] the answer of
    [ucs_arch_get_cpu_vendor], both at the time of the call. *)
Definition ucs_arch_get_cpu_model (version_reg : Z)
    (vendor : ucs_cpu_vendor_t) (cached : ucs_cpu_model_t)
    : ucs_cpu_model_t * ucs_cpu_model_t :=
  if decide (cached <> UCS_CPU_MODEL_LAST) then (cached, cached)
  else
    let cpu_model :=
      cpu_model_of vendor (adjusted_family version_reg)
        (adjusted_model version_reg) in
    (cpu_model, cpu_model).

(** ** Byte copies on x86-64

    The copy routines of the x86-64 CPU sources, on a flat memory: one byte
    per address.  A load reads the bytes the memory holds at that moment, a
    store changes the memory the later loads see, so that overlapping
    buffers are modelled as they behave.  Prefetches and fences leave the
    memory as it is. *)

Abbreviation memory := (Z -> Byte.byte).

(** The [k] bytes at address [a]: the value of a [k]-byte load. *)
Definition load (k : nat) (mem : memory) (a : Z) : list Byte.byte :=
  (fun i : nat => mem (a + Z.of_nat i)) <$> seq 0 k.

(** The memory after the bytes [v] were stored at address [a]. *)
Definition store (mem : memory) (a : Z) (v : list Byte.byte) : memory :=
  fun x =>
    if decide (a <= x < a + Z.of_nat (length v))
    then default (mem x) (v !! Z.to_nat (x - a))
    else mem x.

(** [ucs_count_leading_zero_bits] on a 32-bit value: 32 for 0, as the
    [case] labels of [ucs_x86_copy_bytes_le_128] have it. *)
Definition ucs_count_leading_zero_bits (n : Z) : Z :=
  if n =? 0 then 32 else 31 - Z.log2 n.

(** [ucs_x86_copy_bytes_le_128]; [dst] and [src] are addresses. *)
Definition ucs_x86_copy_bytes_le_128 (dst src : Z) (len : Z) (mem : memory)
    : memory :=
  match ucs_count_leading_zero_bits len with
  | 32 => mem
  | 31 => store mem dst (load 1 mem src)
  | 30 =>
      let mem1 := store mem dst (load 2 mem src) in
      store mem1 (dst + (len - 2)) (load 2 mem1 (src + (len - 2)))
  | 29 =>
      let mem1 := store mem dst (load 4 mem src) in
      store mem1 (dst + (len - 4)) (load 4 mem1 (src + (len - 4)))
  | 28 =>
      let mem1 := store mem dst (load 8 mem src) in
      store mem1 (dst + (len - 8)) (load 8 mem1 (src + (len - 8)))
  | 27 =>
      let mem1 := store mem dst (load 8 mem src) in
      let mem2 := store mem1 (dst + 8) (load 8 mem1 (src + 8)) in
      let mem3 :=
        store mem2 (dst + (len - 16)) (load 8 mem2 (src + (len - 16))) in
      store mem3 (dst + (len - 8)) (load 8 mem3 (src + (len - 8)))
  | 26 =>
      let y0 := load 32 mem src in
      let y1 := load 32 mem (src + (len - 32)) in
      let mem1 := store mem dst y0 in
      store mem1 (dst + (len - 32)) y1
  | _ =>
      let y0 := load 32 mem src in
      let y1 := load 32 mem (src + 32) in
      let y2 := load 32 mem (src + (len - 64)) in
      let y3 := load 32 mem (src + (len - 32)) in
      let mem1 := store mem dst y0 in
      let mem2 := store mem1 (dst + 32) y1 in
      let mem3 := store mem2 (dst + (len - 64)) y2 in
      store mem3 (dst + (len - 32)) y3
  end.

(** What a copy of [len] bytes from [src] to [dst] has to leave in memory,
    given the memory [mem] before it. *)
Definition copied (dst src len : Z) (mem : memory) : memory :=
  fun x => if decide (dst <= x < dst + len) then mem (src + (x - dst))
           else mem x.

(** The two buffers of a copy do not overlap. *)
Definition disjoint_buffers (dst src len : Z) : Prop :=
  dst + len <= src \/ src + len <= dst.

(** A memory with a fault flag: an instruction that needs an aligned
    address raises the flag when its address is not aligned. *)
Record machine : Type := {
  m_mem : memory;
  m_fault : bool
}.

Definition aligned_access (align a : Z) (st : machine) : machine :=
  {| m_mem := m_mem st;
     m_fault := m_fault st || negb (a mod align =? 0) |}.

Definition write (a : Z) (v : list Byte.byte) (st : machine) : machine :=
  {| m_mem := store (m_mem st) a v; m_fault := m_fault st |}.

(** The AVX loads and stores of 32 bytes: [loadu] and [storeu] take any
    address; [load], [store] and the streaming store need a 32-byte aligned
    one. *)
Definition mm256_loadu_si256 (st : machine) (p : Z) : list Byte.byte :=
  load 32 (m_mem st) p.

Definition mm256_load_si256 (st : machine) (p : Z)
    : list Byte.byte * machine :=
  (load 32 (m_mem st) p, aligned_access 32 p st).

Definition mm256_storeu_si256 (p : Z) (v : list Byte.byte) (st : machine)
    : machine := write p v st.

Definition mm256_store_si256 (p : Z) (v : list Byte.byte) (st : machine)
    : machine := aligned_access 32 p (write p v st).

Definition mm256_stream_si256 (p : Z) (v : list Byte.byte) (st : machine)
    : machine := aligned_access 32 p (write p v st).

(** The load of a loop body: the two branches on the alignment of the
    source run the same loop, one with [_mm256_loadu_si256] and one with
    [_mm256_load_si256]. *)
Definition load32 (aligned : bool) (st : machine) (p : Z)
    : list Byte.byte * machine :=
  if aligned then mm256_load_si256 st p else (mm256_loadu_si256 st p, st).

(** Subtraction on [size_t]. *)
Definition size_sub (a b : Z) : Z := (a - b) mod 2 ^ 64.

(** [ucs_x86_copy_bytes_le_128] on a machine; its [len] parameter is a
    [uint32_t]. *)
Definition copy_bytes_le_128 (dst src len : Z) (st : machine) : machine :=
  {| m_mem := ucs_x86_copy_bytes_le_128 dst src (len mod 2 ^ 32) (m_mem st);
     m_fault := m_fault st |}.

(** The body of the loops that move 256 bytes per iteration with streaming
    stores: eight loads, then eight stores. *)
Definition stream_256 (aligned : bool) (dst src offset : Z) (st : machine)
    : machine :=
  let '(y4, st) := load32 aligned st (src + offset) in
  let '(y5, st) := load32 aligned st (src + (offset + 32)) in
  let '(y6, st) := load32 aligned st (src + (offset + 64)) in
  let '(y7, st) := load32 aligned st (src + (offset + 96)) in
  let '(y0, st) := load32 aligned st (src + (offset + 128)) in
  let '(y1, st) := load32 aligned st (src + (offset + 160)) in
  let '(y2, st) := load32 aligned st (src + (offset + 192)) in
  let '(y3, st) := load32 aligned st (src + (offset + 224)) in
  let st := mm256_stream_si256 (dst + offset) y4 st in
  let st := mm256_stream_si256 (dst + (offset + 32)) y5 st in
  let st := mm256_stream_si256 (dst + (offset + 64)) y6 st in
  let st := mm256_stream_si256 (dst + (offset + 96)) y7 st in
  let st := mm256_stream_si256 (dst + (offset + 128)) y0 st in
  let st := mm256_stream_si256 (dst + (offset + 160)) y1 st in
  let st := mm256_stream_si256 (dst + (offset + 192)) y2 st in
  mm256_stream_si256 (dst + (offset + 224)) y3 st.

(** [while (len >= 256) { ...; offset += 256; len -= 256; }], run for at
    most [fuel] iterations. *)
Fixpoint stream_256_loop (fuel : nat) (aligned : bool)
    (dst src offset len : Z) (st : machine) : Z * Z * machine :=
  match fuel with
  | O => (offset, len, st)
  | S fuel' =>
      if len >=? 256 then
        stream_256_loop fuel' aligned dst src (offset + 256)
          (size_sub len 256) (stream_256 aligned dst src offset st)
      else (offset, len, st)
  end.

(** The body of the loop that moves 64 bytes per iteration with streaming
    stores. *)
Definition stream_64 (dst src offset : Z) (st : machine) : machine :=
  let y4 := mm256_loadu_si256 st (src + offset) in
  let y5 := mm256_loadu_si256 st (src + (offset + 32)) in
  let st := mm256_stream_si256 (dst + offset) y4 st in
  mm256_stream_si256 (dst + (offset + 32)) y5 st.

Fixpoint stream_64_loop (fuel : nat) (dst src offset len : Z)
    (st : machine) : Z * Z * machine :=
  match fuel with
  | O => (offset, len, st)
  | S fuel' =>
      if len >=? 64 then
        stream_64_loop fuel' dst src (offset + 64) (size_sub len 64)
          (stream_64 dst src offset st)
      else (offset, len, st)
  end.

(** The part that [ucs_x86_nt_all_buffer_transfer] and the first branch of
    [ucs_x86_nt_dst_buffer_transfer] share: from the computation of
    [offset] to the end of the 64-byte loop.  The result is the remaining
    length.  A loop runs at most [len] times, since each iteration takes at
    least 64 off [len]. *)
Definition stream_from_64 (dst src len : Z) (st : machine) : Z * machine :=
  let offset := 64 - Z.land dst 0x1f in
  let len := size_sub len offset in
  let aligned := Z.land (src + offset) 0x1f =? 0 in
  let '(offset, len, st) :=
    stream_256_loop (Z.to_nat len) aligned dst src offset len st in
  let '(offset, len, st) :=
    stream_64_loop (Z.to_nat len) dst src offset len st in
  (len, st).

(** "copy 64 bytes unconditionally" *)
Definition copy_first_64 (dst src : Z) (st : machine) : machine :=
  let y0 := mm256_loadu_si256 st src in
  let y1 := mm256_loadu_si256 st (src + 32) in
  let st := mm256_storeu_si256 dst y0 st in
  mm256_storeu_si256 (dst + 32) y1 st.

Definition ucs_x86_nt_all_buffer_transfer (dst src len : Z) (st : machine)
    : Z * machine :=
  stream_from_64 dst src len (copy_first_64 dst src st).

(** The body of the loops that move 128 bytes per iteration with aligned
    stores. *)
Definition store_128 (aligned : bool) (dst src offset : Z) (st : machine)
    : machine :=
  let '(y0, st) := load32 aligned st (src + offset) in
  let '(y1, st) := load32 aligned st (src + (offset + 32)) in
  let '(y2, st) := load32 aligned st (src + (offset + 64)) in
  let '(y3, st) := load32 aligned st (src + (offset + 96)) in
  let st := mm256_store_si256 (dst + offset) y0 st in
  let st := mm256_store_si256 (dst + (offset + 32)) y1 st in
  let st := mm256_store_si256 (dst + (offset + 64)) y2 st in
  mm256_store_si256 (dst + (offset + 96)) y3 st.

Fixpoint store_128_loop (fuel : nat) (aligned : bool)
    (dst src offset len : Z) (st : machine) : Z * Z * machine :=
  match fuel with
  | O => (offset, len, st)
  | S fuel' =>
      if len >=? 128 then
        store_128_loop fuel' aligned dst src (offset + 128)
          (size_sub len 128) (store_128 aligned dst src offset st)
      else (offset, len, st)
  end.

Definition ucs_x86_nt_dst_buffer_transfer (dst src len total_len : Z)
    (st : machine) : Z * machine :=
  let switch_to_nt_store_size := 2048 in
  let st := copy_first_64 dst src st in
  if total_len >? switch_to_nt_store_size then
    stream_from_64 dst src len st
  else
    (* copy next 64 bytes unconditionally *)
    let y2 := mm256_loadu_si256 st (src + 64) in
    let y3 := mm256_loadu_si256 st (src + 96) in
    let st := mm256_storeu_si256 (dst + 64) y2 st in
    let st := mm256_storeu_si256 (dst + 96) y3 st in
    let offset := 128 - Z.land dst 0x1f in
    let len := size_sub len offset in
    let '(offset, len, st) :=
      store_128_loop (Z.to_nat len) false dst src offset len st in
    (len, st).

Definition ucs_x86_nt_src_buffer_transfer (dst src len : Z) (st : machine)
    : Z * machine :=
  (* copy 128 bytes unconditionally *)
  let y0 := mm256_loadu_si256 st src in
  let y1 := mm256_loadu_si256 st (src + 32) in
  let y2 := mm256_loadu_si256 st (src + 64) in
  let y3 := mm256_loadu_si256 st (src + 96) in
  let st := mm256_storeu_si256 dst y0 st in
  let st := mm256_storeu_si256 (dst + 32) y1 st in
  let st := mm256_storeu_si256 (dst + 64) y2 st in
  let st := mm256_storeu_si256 (dst + 96) y3 st in
  let offset := 128 - Z.land dst 0x1f in
  let len := size_sub len offset in
  let aligned := Z.land (src + offset) 0x1f =? 0 in
  let '(offset, len, st) :=
    store_128_loop (Z.to_nat len) aligned dst src offset len st in
  (len, st).

(** [ucs_x86_nt_buffer_transfer].  [nt_dest_threshold] is
    [ucs_global_opts.arch.nt_dest_threshold]; [nt_source] and [nt_dest] are
    the values of the tests [hint & UCS_ARCH_MEMCPY_NT_SOURCE] and
    [hint & UCS_ARCH_MEMCPY_NT_DEST]. *)
Definition ucs_x86_nt_buffer_transfer (nt_dest_threshold : Z)
    (dst src len : Z) (nt_source nt_dest : bool) (total_len : Z)
    (st : machine) : machine :=
  if len <=? 128 then copy_bytes_le_128 dst src len st
  else
    let '(tail_bytes, st) :=
      if total_len >? nt_dest_threshold then
        if nt_source then ucs_x86_nt_all_buffer_transfer dst src len st
        else ucs_x86_nt_dst_buffer_transfer dst src len total_len st
      else if nt_dest then
        ucs_x86_nt_dst_buffer_transfer dst src len total_len st
      else if nt_source then ucs_x86_nt_src_buffer_transfer dst src len st
      else (0, write dst (load (Z.to_nat len) (m_mem st) src) st) in
    copy_bytes_le_128 (dst + (len - tail_bytes)) (src + (len - tail_bytes))
      tail_bytes st.

(** A memory for the sample runs: the byte at address [x] is [x mod 256]. *)
Definition sample_memory : memory :=
  fun x => default Byte.x00 (Byte.of_N (Z.to_N (x mod 256))).

(** The state of a transfer of [total] bytes from [src] to [dst] out of the
    memory [mem0], when the bytes before [offset] are in place and [len]
    bytes are left: no fault so far, the next destination address aligned
    for a 32-byte store, and nothing outside the destination buffer
    changed. *)
Definition transfer_inv (dst src total : Z) (mem0 : memory)
    (offset len : Z) (st : machine) : Prop :=
  0 <= offset /\ 0 <= len /\ offset + len = total /\
  m_fault st = false /\
  (dst + offset) mod 32 = 0 /\
  (forall x, dst <= x < dst + offset ->
     m_mem st x = mem0 (src + (x - dst))) /\
  (forall x, ~ (dst <= x < dst + total) -> m_mem st x = mem0 x).

(** The first [n] bytes of the transfer are in place, nothing outside the
    destination buffer changed and no fault was raised. *)
Definition transfer_prefix (dst src total : Z) (mem0 : memory) (n : Z)
    (st : machine) : Prop :=
  m_fault st = false /\
  (forall x, dst <= x < dst + n -> m_mem st x = mem0 (src + (x - dst))) /\
  (forall x, ~ (dst <= x < dst + total) -> m_mem st x = mem0 x).

(** The SSE loads and stores of 16 bytes.  [_mm_load] is defined as the
    streaming load [_mm_stream_load_si128], which needs a 16-byte aligned
    address; [_mm_store] is defined as [_mm_storeu_si128]. *)
Definition mm_load (st : machine) (p : Z) : list Byte.byte * machine :=
  (load 16 (m_mem st) p, aligned_access 16 p st).

Definition mm_store (p : Z) (v : list Byte.byte) (st : machine) : machine :=
  write p v st.

(** "Copy 64 bytes at a time": the body of the loop. *)
Definition sse_copy_64 (dst src : Z) (st : machine) : machine :=
  let '(tmp0, st) := mm_load st src in
  let '(tmp1, st) := mm_load st (src + 16) in
  let '(tmp2, st) := mm_load st (src + 32) in
  let '(tmp3, st) := mm_load st (src + 48) in
  let st := mm_store dst tmp0 st in
  let st := mm_store (dst + 16) tmp1 st in
  let st := mm_store (dst + 32) tmp2 st in
  mm_store (dst + 48) tmp3 st.

Fixpoint sse_loop_64 (fuel : nat) (dst src len : Z) (st : machine)
    : Z * Z * Z * machine :=
  match fuel with
  | O => (dst, src, len, st)
  | S fuel' =>
      if len >=? 64 then
        sse_loop_64 fuel' (dst + 64) (src + 64) (size_sub len 64)
          (sse_copy_64 dst src st)
      else (dst, src, len, st)
  end.

(** "Copy 16 bytes at a time": the body of the loop. *)
Definition sse_copy_16 (dst src : Z) (st : machine) : machine :=
  let '(tmp, st) := mm_load st src in
  mm_store dst tmp st.

Fixpoint sse_loop_16 (fuel : nat) (dst src len : Z) (st : machine)
    : Z * Z * Z * machine :=
  match fuel with
  | O => (dst, src, len, st)
  | S fuel' =>
      if len >=? 16 then
        sse_loop_16 fuel' (dst + 16) (src + 16) (size_sub len 16)
          (sse_copy_16 dst src st)
      else (dst, src, len, st)
  end.

(** "Copy unaligned portion of src": the bytes of the aligned 16-byte line
    from the source address on, at most [len] of them. *)
Definition sse_copy_head (dst src len : Z) (st : machine)
    : Z * Z * Z * machine :=
  if negb (Z.land src 15 =? 0) then
    let aligned := Z.land src (Z.lnot 15) in
    let misalign := Z.land src 15 in
    let copy := Z.min len (16 - misalign) in
    let '(tmp, st) := mm_load st aligned in
    let st :=
      write dst (take (Z.to_nat copy) (drop (Z.to_nat misalign) tmp)) st in
    (dst + copy, src + copy, size_sub len copy, st)
  else (dst, src, len, st).

(** [ucs_x86_memcpy_sse_movntdqa] in a build with SSE4.1. *)
Definition ucs_x86_memcpy_sse_movntdqa (dst src len : Z) (st : machine)
    : machine :=
  let '(dst, src, len, st) := sse_copy_head dst src len st in
  let '(dst, src, len, st) := sse_loop_64 (Z.to_nat len) dst src len st in
  let '(dst, src, len, st) := sse_loop_16 (Z.to_nat len) dst src len st in
  if negb (len =? 0) then
    let '(tmp, st) := mm_load st src in
    write dst (take (Z.to_nat len) tmp) st
  else st.

(** The state of [ucs_x86_memcpy_sse_movntdqa] when [len] of the [total]
    bytes are left and the two pointers stand at [d] and [s]: no fault so
    far, the source pointer aligned for the next load if there is one, the
    bytes before [d] in place and nothing outside the destination buffer
    changed. *)
Definition sse_inv (dst src total : Z) (mem0 : memory)
    (d s len : Z) (st : machine) : Prop :=
  0 <= len <= total /\
  d = dst + (total - len) /\ s = src + (total - len) /\
  m_fault st = false /\
  (len = 0 \/ s mod 16 = 0) /\
  (forall x, dst <= x < d -> m_mem st x = mem0 (src + (x - dst))) /\
  (forall x, ~ (dst <= x < dst + total) -> m_mem st x = mem0 x).

(** ** CPU feature flags on x86-64

    [ucs_arch_get_cpu_flag].  What [cpuid] and [xgetbv] answer is an
    input. *)

Inductive cpu_flag_name : Set :=
| CMOV | MMX | MMX2 | SSE | SSE2 | SSE3 | SSSE3 | SSE41 | SSE42 | AVX | AVX2.

#[global] Instance cpu_flag_name_eq_dec : EqDecision cpu_flag_name.
Proof. solve_decision. Defined.

Record cpuid_regs : Set := {
  r_eax : Z;
  r_ebx : Z;
  r_ecx : Z;
  r_edx : Z
}.

(** The registers [cpuid] returns for a leaf, and the [eax] that [xgetbv]
    returns for index 0. *)
Record cpu_hw : Set := {
  cpuid : Z -> cpuid_regs;
  xgetbv0_eax : Z
}.

Definition X86_CPUID_GET_BASE_VALUE : Z := 0x00000000.
Definition X86_CPUID_GET_MODEL : Z := 0x00000001.
Definition X86_CPUID_GET_EXTD_VALUE : Z := 0x00000007.

Section CpuFlag.

(** The constants [UCS_CPU_FLAG_CMOV], ..., [UCS_CPU_FLAG_AVX2] are declared
    outside the sources: [flag_bit] gives the position of the bit of each,
    and [UCS_CPU_FLAG_UNKNOWN] is the value that marks the static variable as
    not yet computed. *)
Variable flag_bit : cpu_flag_name -> Z.
Variable UCS_CPU_FLAG_UNKNOWN : Z.

Definition UCS_CPU_FLAG (f : cpu_flag_name) : Z := UCS_BIT (flag_bit f).

(** [if (c) { result |= UCS_CPU_FLAG_f; }] *)
Definition or_flag (c : bool) (f : cpu_flag_name) (result : Z) : Z :=
  if c then Z.lor result (UCS_CPU_FLAG f) else result.

(** [v & m] as a condition. *)
Definition test_mask (v m : Z) : bool := negb (Z.land v m =? 0).

(** The body of the [if (UCS_CPU_FLAG_UNKNOWN == cpu_flag)] block, up to the
    assignment to [cpu_flag]. *)
Definition cpu_flag_detect (hw : cpu_hw) : Z :=
  let result := 0 in
  let base_value := r_eax (cpuid hw X86_CPUID_GET_BASE_VALUE) in
  let result :=
    if base_value >=? 1 then
      let r := cpuid hw X86_CPUID_GET_MODEL in
      let result :=
        or_flag (test_mask (r_edx r) (Z.shiftl 1 15)) CMOV result in
      let result :=
        or_flag (test_mask (r_edx r) (Z.shiftl 1 23)) MMX result in
      let result :=
        or_flag (test_mask (r_edx r) (Z.shiftl 1 25)) MMX2 result in
      let result :=
        or_flag (test_mask (r_edx r) (Z.shiftl 1 25)) SSE result in
      let result :=
        or_flag (test_mask (r_edx r) (Z.shiftl 1 26)) SSE2 result in
      let result := or_flag (test_mask (r_ecx r) 1) SSE3 result in
      let result :=
        or_flag (test_mask (r_ecx r) (Z.shiftl 1 9)) SSSE3 result in
      let result :=
        or_flag (test_mask (r_ecx r) (Z.shiftl 1 19)) SSE41 result in
      let result :=
        or_flag (test_mask (r_ecx r) (Z.shiftl 1 20)) SSE42 result in
      if Z.land (r_ecx r) 0x18000000 =? 0x18000000 then
        or_flag (Z.land (xgetbv0_eax hw) 0x6 =? 0x6) AVX result
      else result
    else result in
  if base_value >=? 7 then
    let r := cpuid hw X86_CPUID_GET_EXTD_VALUE in
    or_flag (test_mask result (UCS_CPU_FLAG AVX) &&
             test_mask (r_ebx r) (Z.shiftl 1 5)) AVX2 result
  else result.

(** The function with its static variable [cpu_flag] made explicit, as for
    [ucs_arch_get_cpu_model]. *)
Definition ucs_arch_get_cpu_flag (hw : cpu_hw) (cached : Z) : Z * Z :=
  if UCS_CPU_FLAG_UNKNOWN =? cached then
    (cpu_flag_detect hw, cpu_flag_detect hw)
  else (cached, cached).

End CpuFlag.

(** The positions of the flag bits in declaration order, and a processor
    that reports every feature. *)
Definition sample_flag_bit (f : cpu_flag_name) : Z :=
  match f with
  | CMOV => 0 | MMX => 1 | MMX2 => 2 | SSE => 3 | SSE2 => 4 | SSE3 => 5
  | SSSE3 => 6 | SSE41 => 7 | SSE42 => 8 | AVX => 9 | AVX2 => 10
  end.

Definition sample_cpu_hw : cpu_hw :=
  {| cpuid := fun leaf =>
       {| r_eax := if leaf =? 0 then 13 else 0;
          r_ebx := 0xffffffff; r_ecx := 0xffffffff; r_edx := 0xffffffff |};
     xgetbv0_eax := 7 |}.

(** ** Facts on the order of doubles *)

Lemma SFltb_rank (f g : spec_float) :
  f <> S754_nan -> g <> S754_nan ->
  SFltb f g = true <-> rank_lt (sf_rank f) (sf_rank g).
Proof.
  intros Hf Hg. unfold SFltb, rank_lt.
  destruct f as [sf|sf| |sf mf ef], g as [sg|sg| |sg mg eg];
    try congruence;
    try destruct sf; try destruct sg; simpl;
    try (split; [intros; try discriminate; lia | intros; try reflexivity; lia]);
    change (Pos.compare_cont Eq mf mg) with (mf ?= mg)%positive;
    destruct (Z.compare_spec ef eg); destruct (Pos.compare_spec mf mg);
    simpl; split; intros; try discriminate; try reflexivity; try lia.
Qed.

Lemma SFeqb_rank (f g : spec_float) :
  f <> S754_nan -> g <> S754_nan ->
  SFeqb f g = true <-> sf_rank f = sf_rank g.
Proof.
  intros Hf Hg. unfold SFeqb.
  destruct f as [sf|sf| |sf mf ef], g as [sg|sg| |sg mg eg];
    try congruence;
    try destruct sf; try destruct sg; simpl;
    try (split; [intros; try discriminate; congruence
                | intros; try reflexivity; congruence]);
    change (Pos.compare_cont Eq mf mg) with (mf ?= mg)%positive;
    destruct (Z.compare_spec ef eg); destruct (Pos.compare_spec mf mg);
    simpl; split; intros; try discriminate; try reflexivity;
    try (f_equal; [f_equal|]; lia); try (exfalso; injection H1; lia).
Qed.

Lemma is_number_SF (x : double) : is_number x -> Prim2SF x <> S754_nan.
Proof.
  unfold is_number, PrimFloat.is_nan. rewrite FloatAxioms.eqb_spec. intros H E.
  rewrite E in H. discriminate.
Qed.

Lemma double_ltb_rank (x y : double) :
  is_number x -> is_number y ->
  PrimFloat.ltb x y = true <->
  rank_lt (sf_rank (Prim2SF x)) (sf_rank (Prim2SF y)).
Proof.
  intros Hx Hy. rewrite FloatAxioms.ltb_spec.
  apply SFltb_rank; by apply is_number_SF.
Qed.

Lemma double_ltb_nan_l (x y : double) :
  ~ is_number x -> PrimFloat.ltb x y = false.
Proof.
  unfold is_number, PrimFloat.is_nan. rewrite FloatAxioms.ltb_spec, FloatAxioms.eqb_spec.
  destruct (Prim2SF x) as [s|s| |s m e] eqn:Ex; try reflexivity;
    intros H; exfalso; apply H; unfold SFeqb, SFcompare.
  - reflexivity.
  - by destruct s.
  - destruct s; rewrite Z.compare_refl;
      change (Pos.compare_cont Eq m m) with (m ?= m)%positive;
      by rewrite Pos.compare_refl.
Qed.

Lemma double_ltb_irrefl (x : double) : PrimFloat.ltb x x = false.
Proof.
  destruct (PrimFloat.is_nan x) eqn:Hx.
  - apply double_ltb_nan_l. unfold is_number. congruence.
  - apply not_true_is_false. rewrite double_ltb_rank by exact Hx.
    unfold rank_lt. lia.
Qed.

Lemma double_ltb_infinity (x : double) : PrimFloat.ltb INFINITY x = false.
Proof.
  rewrite FloatAxioms.ltb_spec. unfold INFINITY.
  replace (Prim2SF infinity) with (S754_infinity false) by reflexivity.
  unfold SFltb, SFcompare. by destruct (Prim2SF x) as [s|[]| |s m e].
Qed.

(** Transitivity, for all doubles. *)
Lemma double_ltb_trans (x y z : double) :
  PrimFloat.ltb x y = true -> PrimFloat.ltb y z = true ->
  PrimFloat.ltb x z = true.
Proof.
  intros Hxy Hyz.
  assert (Nx : is_number x).
  { destruct (PrimFloat.is_nan x) eqn:N; [|exact N].
    rewrite double_ltb_nan_l in Hxy; [discriminate|].
    unfold is_number; congruence. }
  assert (Ny : is_number y).
  { destruct (PrimFloat.is_nan y) eqn:N; [|exact N].
    rewrite double_ltb_nan_l in Hyz; [discriminate|].
    unfold is_number; congruence. }
  assert (Nz : is_number z).
  { destruct (PrimFloat.is_nan z) eqn:N; [|exact N].
    exfalso. revert Hyz. rewrite FloatAxioms.ltb_spec.
    unfold PrimFloat.is_nan in N. rewrite FloatAxioms.eqb_spec in N.
    destruct (Prim2SF z) as [s|s| |s m e] eqn:Ez.
    - discriminate.
    - by destruct s.
    - unfold SFltb, SFcompare. by destruct (Prim2SF y).
    - exfalso. revert N. unfold SFeqb, SFcompare.
      destruct s; rewrite Z.compare_refl;
        change (Pos.compare_cont Eq m m) with (m ?= m)%positive;
        by rewrite Pos.compare_refl. }
  rewrite double_ltb_rank in * by assumption.
  unfold rank_lt in *. lia.
Qed.

(** Among numbers, "not below" is transitive. *)
Lemma double_nlt_trans (x y z : double) :
  is_number x -> is_number y -> is_number z ->
  PrimFloat.ltb x y = false -> PrimFloat.ltb y z = false ->
  PrimFloat.ltb x z = false.
Proof.
  intros Nx Ny Nz Hxy Hyz. apply not_true_is_false. intros Hxz.
  apply not_true_iff_false in Hxy, Hyz.
  rewrite double_ltb_rank in * by assumption.
  unfold rank_lt in *. lia.
Qed.

(** Two numbers neither of which is below the other compare equal. *)
Lemma double_nlt_eqb (x y : double) :
  is_number x -> is_number y ->
  PrimFloat.ltb x y = false -> PrimFloat.ltb y x = false ->
  PrimFloat.eqb x y = true.
Proof.
  intros Nx Ny Hxy Hyx.
  apply not_true_iff_false in Hxy, Hyx.
  rewrite double_ltb_rank in * by assumption.
  rewrite FloatAxioms.eqb_spec, SFeqb_rank by by apply is_number_SF.
  unfold rank_lt in *.
  destruct (sf_rank (Prim2SF x)) as [[a b] c].
  destruct (sf_rank (Prim2SF y)) as [[a' b'] c']. simpl in *.
  f_equal; [f_equal|]; lia.
Qed.

Lemma double_eqb_ltb (x y : double) :
  PrimFloat.eqb x y = true -> PrimFloat.ltb x y = false.
Proof.
  rewrite FloatAxioms.eqb_spec, FloatAxioms.ltb_spec. unfold SFeqb, SFltb.
  by destruct (SFcompare (Prim2SF x) (Prim2SF y)) as [[]|].
Qed.

Lemma double_eqb_ltb_r (x y : double) :
  PrimFloat.eqb x y = true -> PrimFloat.ltb y x = false.
Proof.
  rewrite FloatAxioms.eqb_spec, FloatAxioms.ltb_spec. intros Heq.
  assert (Hx : Prim2SF x <> S754_nan).
  { intros E. rewrite E in Heq. discriminate. }
  assert (Hy : Prim2SF y <> S754_nan).
  { intros E. rewrite E in Heq. unfold SFeqb, SFcompare in Heq.
    by destruct (Prim2SF x). }
  apply not_true_is_false. rewrite SFltb_rank by assumption.
  apply SFeqb_rank in Heq; [|assumption..]. rewrite Heq.
  unfold rank_lt. lia.
Qed.

Lemma SF_is_number (x : double) : Prim2SF x <> S754_nan -> is_number x.
Proof.
  intros Hx. unfold is_number, PrimFloat.is_nan.
  rewrite FloatAxioms.eqb_spec.
  assert (H : SFeqb (Prim2SF x) (Prim2SF x) = true)
    by (by apply SFeqb_rank).
  by rewrite H.
Qed.

(** The data model has latencies at least 0; such a double is a number. *)
Lemma double_nonneg_is_number (x : double) :
  PrimFloat.leb 0 x = true -> is_number x.
Proof.
  rewrite FloatAxioms.leb_spec. intros Hle. apply SF_is_number.
  intros E. rewrite E in Hle. unfold SFleb, SFcompare in Hle.
  by destruct (Prim2SF 0).
Qed.

(** ** The log of a run *)

Lemma log_all_nil (w : world) : log_all [] w = w.
Proof. destruct w. unfold log_all. simpl. by rewrite app_nil_r. Qed.

Lemma log_log_all (c : call) (cs : list call) (w : world) :
  log c (log_all cs w) = log_all (cs ++ [c]) w.
Proof. unfold log, log_all. simpl. by rewrite app_assoc. Qed.

Lemma log_as_log_all (c : call) (w : world) : log c w = log_all [c] w.
Proof. reflexivity. Qed.

Lemma log_all_log_all (cs cs' : list call) (w : world) :
  log_all cs' (log_all cs w) = log_all (cs ++ cs') w.
Proof. unfold log_all. simpl. by rewrite app_assoc. Qed.

Lemma log_all_log (c : call) (cs : list call) (w : world) :
  log_all cs (log c w) = log_all (c :: cs) w.
Proof. unfold log, log_all. simpl. by rewrite <- app_assoc. Qed.

Lemma calls_since_log_all (cs : list call) (w : world) :
  calls_since w (log_all cs w) = cs.
Proof. unfold calls_since, log_all. simpl. by rewrite drop_app_length. Qed.

Lemma acquisitions_app (cs cs' : list call) :
  acquisitions (cs ++ cs') = (acquisitions cs + acquisitions cs')%nat.
Proof. apply sum_list_with_app. Qed.

Lemma releasings_app (cs cs' : list call) :
  releasings (cs ++ cs') = (releasings cs + releasings cs')%nat.
Proof. apply sum_list_with_app. Qed.

Section RunFacts.

Variable E : collaborators.
Variable params : ucp_proto_priority_init_params_t.

Local Abbreviation ok := (fun l => lane_status E params l = UCS_OK).

Lemma provider_eta (l : ucp_lane_index_t) :
  ucp_proto_common_get_lane_perf E (super params) l =
  (lane_status E params l,
   (ucp_proto_common_get_lane_perf E (super params) l).1.2,
   lane_node E params l).
Proof.
  unfold lane_status, lane_node.
  by destruct (ucp_proto_common_get_lane_perf E (super params) l) as [[? ?] ?].
Qed.

(** The scan loop logs its queries and writes nothing else. *)
Lemma scan_lanes_world (todo : list ucp_lane_index_t) (i : nat)
    (st : scan_state) (w : world) :
  (scan_lanes E params todo i st w).2 =
  log_all (query_calls E params todo) w.
Proof.
  revert i st w. induction todo as [|l rest IH]; intros i st w; simpl.
  - by rewrite log_all_nil.
  - rewrite (provider_eta l). fold (query_call E params l).
    destruct (decide (lane_status E params l <> UCS_OK)); simpl.
    + reflexivity.
    + by rewrite IH, log_all_log.
Qed.

(** The loop ends with [UCS_OK] exactly when every query succeeded. *)
Lemma scan_lanes_status_ok (todo : list ucp_lane_index_t) (i : nat)
    (st : scan_state) (w : world) :
  (scan_lanes E params todo i st w).1.1 = UCS_OK <-> Forall ok todo.
Proof.
  revert i st w. induction todo as [|l rest IH]; intros i st w; simpl.
  - split; [constructor | done].
  - rewrite (provider_eta l).
    destruct (decide (lane_status E params l <> UCS_OK)) as [Hne|He]; simpl.
    + split; [done | intros H; by inversion H].
    + apply dec_stable in He. rewrite IH.
      split; [by constructor | intros H; by inversion H].
Qed.

Lemma query_calls_ok (todo : list ucp_lane_index_t) :
  Forall ok todo ->
  query_calls E params todo =
  (fun l => get_lane_perf_call l UCS_OK (lane_node E params l)) <$> todo.
Proof.
  induction 1 as [|l rest Hl _ IH]; simpl; [done|].
  rewrite decide_False by (intros Hne; by apply Hne).
  unfold query_call. by rewrite Hl, IH.
Qed.

(** When every query succeeds the loop computes the running minimum of the
    latencies and fills the slots of the visited lanes. *)
Lemma scan_lanes_ok (todo : list ucp_lane_index_t) (i : nat)
    (st : scan_state) (w : world) :
  Forall ok todo ->
  (scan_lanes E params todo i st w).1 =
  (UCS_OK,
   {| min_latency :=
        (argmin_scan (lane_latency E params <$> todo) i
           (min_latency st, min_lat_lane_index st)).1;
      min_lat_lane_index :=
        (argmin_scan (lane_latency E params <$> todo) i
           (min_latency st, min_lat_lane_index st)).2;
      lanes_perf_nodes :=
        stored_nodes E params todo (lanes_perf_nodes st) |}).
Proof.
  intros Hok. revert i st w.
  induction Hok as [|l rest Hl _ IH]; intros i st w; simpl.
  - by destruct st.
  - rewrite (provider_eta l).
    rewrite decide_False by (intros Hne; by apply Hne).
    rewrite IH. unfold lane_latency at 1 4.
    by destruct (double_gt _ _).
Qed.

(** A slot holds the node of its lane once the lane was visited. *)
Lemma stored_nodes_lookup (todo : list ucp_lane_index_t)
    (nodes : gmap ucp_lane_index_t ucp_proto_perf_node_t)
    (l : ucp_lane_index_t) :
  stored_nodes E params todo nodes !! l =
  if decide (l ∈ todo) then lane_node E params l else nodes !! l.
Proof.
  revert nodes. induction todo as [|k rest IH]; intros nodes.
  - reflexivity.
  - change (stored_nodes E params (k :: rest) nodes)
      with (stored_nodes E params rest
              (store_node k (lane_node E params k) nodes)).
    rewrite IH.
    destruct (decide (l ∈ rest)) as [Hin|Hnin].
    + rewrite decide_True; [done | by right].
    + destruct (decide (l = k)) as [->|Hne].
      * rewrite decide_True by left. unfold store_node.
        destruct (lane_node E params k).
        -- by rewrite lookup_insert_eq.
        -- by rewrite lookup_delete_eq.
      * rewrite decide_False by (intros H; by apply elem_of_cons in H as [?|?]).
        unfold store_node. destruct (lane_node E params k).
        -- by rewrite lookup_insert_ne.
        -- by rewrite lookup_delete_ne.
Qed.

Lemma deref_lanes_world (nodes : gmap ucp_lane_index_t ucp_proto_perf_node_t)
    (todo : list ucp_lane_index_t) (w : world) :
  deref_lanes nodes todo w =
  log_all ((fun l => perf_node_deref_call (nodes !! l)) <$> todo) w.
Proof.
  revert w. induction todo as [|l rest IH]; intros w; simpl.
  - by rewrite log_all_nil.
  - by rewrite IH, log_all_log.
Qed.

End RunFacts.

(** ** The running minimum *)

(** The index stays that of a visited element, or the initial 0. *)
Lemma argmin_scan_index (lats : list double) (i : nat) (acc : double * nat) :
  (acc.2 < i \/ acc.2 = 0)%nat ->
  ((argmin_scan lats i acc).2 < i + length lats \/
   (argmin_scan lats i acc).2 = 0)%nat.
Proof.
  revert i acc. induction lats as [|x rest IH]; intros i acc H; simpl.
  - lia.
  - specialize (IH (S i) (if double_gt acc.1 x then (x, i) else acc)).
    destruct (double_gt acc.1 x); simpl in IH; lia.
Qed.

(** When no latency is below [INFINITY] the initial pair is never
    replaced. *)
Lemma argmin_scan_none_below (lats : list double) (i : nat) :
  Forall (fun x => PrimFloat.ltb x INFINITY = false) lats ->
  argmin_scan lats i (INFINITY, 0%nat) = (INFINITY, 0%nat).
Proof.
  intros H. revert i. induction H as [|x rest Hx _ IH]; intros i; simpl.
  - reflexivity.
  - unfold double_gt. by rewrite Hx.
Qed.

Lemma scan_inv_init : scan_inv [] (INFINITY, 0%nat).
Proof.
  repeat split; simpl; try (intros; discriminate). by right.
Qed.

Lemma scan_inv_step (visited : list double) (acc : double * nat)
    (x : double) :
  Forall is_number visited -> is_number x -> scan_inv visited acc ->
  scan_inv (visited ++ [x])
    (if double_gt acc.1 x then (x, length visited) else acc).
Proof.
  intros Hv Hx (Hm & Hlow & Hup & Hat). unfold double_gt.
  destruct (PrimFloat.ltb x acc.1) eqn:Hlt.
  - (* the new latency becomes the minimum *)
    repeat split; simpl.
    + exact Hx.
    + intros j y Hj. apply lookup_app_Some in Hj as [Hj|[_ Hj]].
      * apply not_true_is_false. intros Hyx.
        pose proof (double_ltb_trans _ _ _ Hyx Hlt) as Hym.
        rewrite (Hlow _ _ Hj) in Hym. discriminate.
      * apply list_lookup_singleton_Some in Hj as [_ <-].
        apply double_ltb_irrefl.
    + intros j y Hjlt Hj. rewrite lookup_app_l in Hj by exact Hjlt.
      destruct (PrimFloat.ltb x y) eqn:Hxy; [reflexivity|].
      assert (Hy : is_number y).
      { eapply Forall_lookup_1 in Hv; eauto. }
      rewrite (double_nlt_trans x y acc.1 Hx Hy Hm Hxy (Hlow _ _ Hj)) in Hlt.
      discriminate.
    + left. by rewrite lookup_app_r, Nat.sub_diag.
  - (* the minimum is kept *)
    repeat split.
    + exact Hm.
    + intros j y Hj. apply lookup_app_Some in Hj as [Hj|[_ Hj]].
      * eauto.
      * by apply list_lookup_singleton_Some in Hj as [_ <-].
    + intros j y Hjlt Hj. apply Hup with j; [exact Hjlt|].
      apply lookup_app_Some in Hj as [Hj|[Hge Hj]]; [exact Hj|].
      exfalso. destruct Hat as [Hat|[H0 _]].
      * apply lookup_lt_Some in Hat. lia.
      * lia.
    + destruct Hat as [Hat|Hat]; [left | by right].
      by apply lookup_app_l_Some.
Qed.

Lemma argmin_scan_inv (todo visited : list double) (acc : double * nat) :
  Forall is_number (visited ++ todo) -> scan_inv visited acc ->
  scan_inv (visited ++ todo) (argmin_scan todo (length visited) acc).
Proof.
  revert visited acc.
  induction todo as [|x rest IH]; intros visited acc Hnum Hinv; simpl.
  - by rewrite app_nil_r.
  - replace (visited ++ x :: rest) with ((visited ++ [x]) ++ rest) in *
      by (by rewrite <- app_assoc).
    replace (S (length visited)) with (length (visited ++ [x]))
      by (rewrite length_app; simpl; lia).
    apply IH; [exact Hnum|].
    apply Forall_app in Hnum as [Hnum _].
    apply Forall_app in Hnum as [Hv Hx].
    apply scan_inv_step; [exact Hv | by inversion Hx | exact Hinv].
Qed.

(** On a non-empty list of numbers the scan ends on the first position
    holding the least latency. *)
Lemma argmin_scan_min (lats : list double) :
  lats <> [] -> Forall is_number lats ->
  exists x,
    lats !! (argmin_scan lats 0 (INFINITY, 0%nat)).2 = Some x /\
    (forall j y, lats !! j = Some y -> PrimFloat.ltb y x = false) /\
    (forall j y, (j < (argmin_scan lats 0 (INFINITY, 0%nat)).2)%nat ->
       lats !! j = Some y -> PrimFloat.ltb x y = true).
Proof.
  intros Hne Hnum.
  pose proof (argmin_scan_inv lats [] (INFINITY, 0%nat) Hnum scan_inv_init)
    as (Hm & Hlow & Hup & Hat).
  simpl in *. destruct Hat as [Hat|[H0 Hinf]].
  - eexists. split; [exact Hat|]. split; assumption.
  - destruct lats as [|x0 rest]; [done|].
    exists x0. rewrite H0. split; [reflexivity|]. split.
    + intros j y Hj.
      assert (Hy : is_number y) by (eapply Forall_lookup_1 in Hnum; eauto).
      assert (Hx0 : is_number x0) by (by inversion Hnum).
      apply (double_nlt_trans y INFINITY x0); try assumption.
      * reflexivity.
      * rewrite <- Hinf. eauto.
      * apply double_ltb_infinity.
    + intros j y Hj. lia.
Qed.

(** ** Runs of [ucp_proto_priority_init_priv] *)

Section InitPrivFacts.

Variable E : collaborators.
Variable params : ucp_proto_priority_init_params_t.

Local Abbreviation ok := (fun l => lane_status E params l = UCS_OK).
Local Abbreviation lanes := (candidates E params).
Local Abbreviation lats := (lane_latency E params <$> candidates E params).

Lemma selected_index_argmin :
  Forall ok lanes ->
  selected_index E params lanes = (argmin_scan lats 0 (INFINITY, 0%nat)).2.
Proof.
  intros Hok. unfold selected_index.
  by rewrite (scan_lanes_ok E params lanes 0 scan_init _ Hok).
Qed.

(** The selected index is the index of a candidate. *)
Lemma selected_index_candidate :
  lanes <> [] -> Forall ok lanes ->
  exists l, lanes !! selected_index E params lanes = Some l.
Proof.
  intros Hne Hok. apply lookup_lt_is_Some_2.
  rewrite selected_index_argmin by exact Hok.
  pose proof (argmin_scan_index lats 0 (INFINITY, 0%nat)) as H.
  rewrite length_fmap in H. simpl in H.
  destruct lanes; [done|]. simpl in *. lia.
Qed.

(** No candidate: the lookup is the only call. *)
Lemma init_priv_no_candidate (w : world) :
  lanes = [] ->
  ucp_proto_priority_init_priv E params w =
  (UCS_ERR_NO_ELEM, log_all [the_find_lanes_call E params] w).
Proof.
  intros Hnil. unfold ucp_proto_priority_init_priv.
  fold lanes. rewrite Hnil. reflexivity.
Qed.

(** A failed query: the function returns from inside the scan loop. *)
Lemma init_priv_query_failed (w : world) :
  lanes <> [] -> ~ Forall ok lanes ->
  exists status,
    status <> UCS_OK /\
    ucp_proto_priority_init_priv E params w =
    (status,
     log_all (the_find_lanes_call E params :: query_calls E params lanes) w).
Proof.
  intros Hne Hbad. unfold ucp_proto_priority_init_priv. fold lanes.
  rewrite decide_False by (by destruct lanes).
  pose proof (scan_lanes_world E params lanes 0 scan_init
                (log (the_find_lanes_call E params) w)) as Hw.
  pose proof (scan_lanes_status_ok E params lanes 0 scan_init
                (log (the_find_lanes_call E params) w)) as Hs.
  unfold the_find_lanes_call in Hw, Hs.
  destruct (scan_lanes E params lanes 0 scan_init _) as [[status st] w1].
  simpl in Hw, Hs. exists status.
  assert (Hst : status <> UCS_OK) by (intros H; by apply Hbad, Hs).
  split; [exact Hst|].
  rewrite decide_True by exact Hst.
  by rewrite Hw, log_all_log.
Qed.

(** Every query succeeds: the run is the one of [selection_calls] for the
    candidate at the selected index, and its result is the aggregator's. *)
Lemma init_priv_selects (w : world) :
  lanes <> [] -> Forall ok lanes ->
  exists l,
    lanes !! selected_index E params lanes = Some l /\
    ucp_proto_priority_init_priv E params w =
    (caps_status E params l, log_all (selection_calls E params l) w).
Proof.
  intros Hne Hok.
  destruct (selected_index_candidate Hne Hok) as [l Hl].
  exists l. split; [exact Hl|].
  unfold ucp_proto_priority_init_priv. fold lanes.
  rewrite decide_False by (by destruct lanes).
  pose proof (scan_lanes_world E params lanes 0 scan_init
                (log (the_find_lanes_call E params) w)) as Hw.
  pose proof (scan_lanes_ok E params lanes 0 scan_init
                (log (the_find_lanes_call E params) w) Hok) as Hs.
  pose proof (selected_index_argmin Hok) as Hidx.
  unfold the_find_lanes_call in Hw, Hs.
  destruct (scan_lanes E params lanes 0 scan_init _) as [[status st] w1].
  simpl in Hw, Hs. injection Hs as -> ->. simpl.
  rewrite <- Hidx.
  assert (Hat : lane_at lanes (selected_index E params lanes) = l).
  { unfold lane_at. by apply list_lookup_total_correct. }
  rewrite Hat.
  assert (Hnode : stored_nodes E params lanes ∅ !! l = lane_node E params l).
  { rewrite stored_nodes_lookup. rewrite decide_True; [done|].
    by eapply list_elem_of_lookup_2. }
  rewrite Hnode, deref_lanes_world, Hw.
  rewrite !log_log_all, !log_all_log_all, log_all_log.
  unfold selection_calls, caps_status. f_equal. f_equal. f_equal.
  rewrite (query_calls_ok E params lanes Hok).
  rewrite <- !app_assoc. simpl. f_equal.
  - apply list_fmap_ext. intros i k Hk. unfold query_call.
    eapply Forall_lookup_1 in Hok; [|exact Hk]. simpl in Hok.
    by rewrite Hok.
  - do 3 f_equal. f_equal.
    apply list_fmap_ext. intros i k Hk.
    rewrite stored_nodes_lookup. rewrite decide_True; [done|].
    by eapply list_elem_of_lookup_2.
Qed.

(** [ucp_proto_priority_init_priv] never writes the caller's cells. *)
Lemma init_priv_cells (w : world) :
  priv (ucp_proto_priority_init_priv E params w).2 = priv w /\
  priv_size (ucp_proto_priority_init_priv E params w).2 = priv_size w.
Proof.
  destruct (decide (lanes = [])) as [Hnil|Hne].
  - by rewrite init_priv_no_candidate.
  - destruct (decide (Forall ok lanes)) as [Hok|Hbad].
    + destruct (init_priv_selects w Hne Hok) as (l & _ & ->). done.
    + destruct (init_priv_query_failed w Hne Hbad) as (s & _ & ->). done.
Qed.

End InitPrivFacts.

(** ** Lane maps *)

Lemma popcount_pow2 (k : Z) : 0 <= k -> popcount (2 ^ k) = 1%nat.
Proof.
  intros Hk. pattern k. apply natlike_ind; [reflexivity | | exact Hk].
  intros x Hx IH. rewrite Z.pow_succ_r by exact Hx.
  assert (Hpos : 0 < 2 ^ x) by (apply Z.pow_pos_nonneg; lia).
  destruct (2 ^ x) as [|p|p]; try lia. exact IH.
Qed.

Section LaneBit.

Variable E : collaborators.

Lemma lane_bit_valid (l : ucp_lane_index_t) :
  0 <= l < ucp_lane_map_bits E -> lane_bit E l = 2 ^ l.
Proof.
  intros Hl. unfold lane_bit, UCS_BIT.
  rewrite Z.shiftl_1_l. apply Z.mod_small. split.
  - apply Z.pow_nonneg. lia.
  - apply Z.pow_lt_mono_r; lia.
Qed.

Lemma lane_bit_testbit (l : ucp_lane_index_t) (n : Z) :
  0 <= l < ucp_lane_map_bits E ->
  Z.testbit (lane_bit E l) n = (l =? n).
Proof.
  intros Hl. rewrite lane_bit_valid by exact Hl.
  apply Z.pow2_bits_eqb. lia.
Qed.

Lemma lane_bit_popcount (l : ucp_lane_index_t) :
  0 <= l < ucp_lane_map_bits E -> popcount (lane_bit E l) = 1%nat.
Proof.
  intros Hl. rewrite lane_bit_valid by exact Hl. apply popcount_pow2. lia.
Qed.

End LaneBit.

(** ** Which calls a selecting run contains *)

Section SelectionCalls.

Variable E : collaborators.
Variable params : ucp_proto_priority_init_params_t.

Lemma selection_calls_reg_md_map (l : ucp_lane_index_t)
    (m : ucp_lane_map_t) :
  reg_md_map_call m ∈ selection_calls E params l <-> m = lane_bit E l.
Proof.
  unfold selection_calls, the_find_lanes_call.
  rewrite elem_of_cons, !elem_of_app, !list_elem_of_fmap.
  rewrite !elem_of_cons, elem_of_nil. split.
  - intros [H|[(k & H & _)|[[H|[H|[H|H]]]|[(k & H & _)|[H|H]]]]];
      try discriminate; try done. by injection H.
  - intros ->. right. right. left. by left.
Qed.

Lemma selection_calls_init_caps (l : ucp_lane_index_t)
    (perf : option ucp_proto_common_tl_perf_t) (node : perf_node_ptr)
    (reg : ucp_md_map_t) (status : ucs_status_t) :
  init_caps_call perf node reg status ∈ selection_calls E params l <->
  perf = None /\ node = lane_node E params l /\
  reg = ucp_proto_common_reg_md_map E (super params) (lane_bit E l) /\
  status = caps_status E params l.
Proof.
  unfold selection_calls, the_find_lanes_call.
  rewrite elem_of_cons, !elem_of_app, !list_elem_of_fmap.
  rewrite !elem_of_cons, elem_of_nil. split.
  - intros [H|[(k & H & _)|[[H|[H|[H|H]]]|[(k & H & _)|[H|H]]]]];
      try discriminate; try done. by injection H.
  - intros (-> & -> & -> & ->). right. right. left. right. right. by left.
Qed.


(** A selecting run takes as many references as it drops: one per non-null
    candidate node, and the extra one on the selected node. *)
Lemma selection_calls_balanced (l : ucp_lane_index_t) :
  Forall (fun k => lane_status E params k = UCS_OK) (candidates E params) ->
  acquisitions (selection_calls E params l) =
  releasings (selection_calls E params l).
Proof.
  intros Hok. unfold selection_calls.
  change (the_find_lanes_call E params :: ?x)
    with ([the_find_lanes_call E params] ++ x).
  rewrite !acquisitions_app, !releasings_app.
  assert (Hq : acquisitions (query_call E params <$> candidates E params) =
               releasings ((fun k => perf_node_deref_call
                              (lane_node E params k)) <$>
                           candidates E params)).
  { induction Hok as [|k rest Hk _ IH]; [reflexivity|].
    rewrite !fmap_cons.
    change (?a :: ?x) with ([a] ++ x).
    rewrite acquisitions_app, releasings_app, IH. f_equal.
    unfold query_call. rewrite Hk.
    unfold acquisitions, releasings. simpl.
    by destruct (lane_node E params k). }
  assert (Hd : acquisitions ((fun k => perf_node_deref_call
                                (lane_node E params k)) <$>
                             candidates E params) = 0%nat).
  { clear Hok Hq.
    induction (candidates E params) as [|k rest IH]; [reflexivity|].
    rewrite fmap_cons. change (?a :: ?x) with ([a] ++ x).
    rewrite acquisitions_app, IH. reflexivity. }
  assert (Hr : releasings (query_call E params <$> candidates E params) =
               0%nat).
  { clear Hok Hq Hd.
    induction (candidates E params) as [|k rest IH]; [reflexivity|].
    rewrite fmap_cons. change (?a :: ?x) with ([a] ++ x).
    rewrite releasings_app, IH. reflexivity. }
  rewrite Hq, Hd, Hr. unfold acquisitions, releasings. simpl.
  destruct (lane_node E params l); simpl; lia.
Qed.

End SelectionCalls.

(** ** The selected lane *)

Section SelectedLane.

Variable E : collaborators.
Variable params : ucp_proto_priority_init_params_t.

Local Abbreviation lanes := (candidates E params).
Local Abbreviation lat := (lane_latency E params).

(** Where every query succeeds and every latency is a number, the candidate
    at the selected index has the least latency and is the first to have
    it. *)
Lemma selected_index_least :
  lanes <> [] ->
  Forall (fun l => lane_status E params l = UCS_OK) lanes ->
  Forall (fun l => is_number (lat l)) lanes ->
  exists l,
    lanes !! selected_index E params lanes = Some l /\
    (forall j k, lanes !! j = Some k -> PrimFloat.ltb (lat k) (lat l) = false) /\
    (forall j k, (j < selected_index E params lanes)%nat ->
       lanes !! j = Some k -> PrimFloat.ltb (lat l) (lat k) = true).
Proof.
  intros Hne Hok Hnum.
  destruct (selected_index_candidate E params Hne Hok) as [l Hl].
  exists l. split; [exact Hl|].
  rewrite selected_index_argmin in * by exact Hok.
  destruct (argmin_scan_min (lat <$> lanes)) as (x & Hx & Hlow & Hup).
  { by destruct lanes. }
  { by apply Forall_fmap. }
  rewrite list_lookup_fmap, Hl in Hx. injection Hx as <-.
  split.
  - intros j k Hk. apply (Hlow j). by rewrite list_lookup_fmap, Hk.
  - intros j k Hj Hk. apply (Hup j); [exact Hj|].
    by rewrite list_lookup_fmap, Hk.
Qed.

End SelectedLane.

(** ** Claims on [ucp_proto_priority_init_priv] *)

(** C1.  For a non-empty candidate list on which every query of the
    Performance Model Provider succeeds and whose latencies are numbers and
    pairwise distinct, [ucp_proto_priority_init_priv] selects the candidate
    whose latency is strictly below every other candidate's; the lane map it
    builds, the one handed to the registration-map builder, has exactly the
    bit of that lane set (the lanes being valid positions of a lane map). *)
Theorem priority_init_priv_selects_min_latency
    (E : collaborators) (params : ucp_proto_priority_init_params_t)
    (w : world) :
  candidates E params <> [] ->
  Forall (fun l => lane_status E params l = UCS_OK) (candidates E params) ->
  Forall (fun l => is_number (lane_latency E params l))
    (candidates E params) ->
  (forall i j li lj, i <> j ->
     candidates E params !! i = Some li ->
     candidates E params !! j = Some lj ->
     PrimFloat.eqb (lane_latency E params li) (lane_latency E params lj)
     = false) ->
  Forall (fun l => 0 <= l < ucp_lane_map_bits E) (candidates E params) ->
  exists i l,
    candidates E params !! i = Some l /\
    (forall j lj, j <> i -> candidates E params !! j = Some lj ->
       PrimFloat.ltb (lane_latency E params l) (lane_latency E params lj)
       = true) /\
    (forall m, reg_md_map_call m ∈
                 calls_since w (ucp_proto_priority_init_priv E params w).2
               <-> m = lane_bit E l) /\
    (forall n, Z.testbit (lane_bit E l) n = (l =? n)).
Proof.
  intros Hne Hok Hnum Hdist Hvalid.
  destruct (selected_index_least E params Hne Hok Hnum)
    as (l & Hl & Hlow & _).
  destruct (init_priv_selects E params w Hne Hok) as (l' & Hl' & Hrun).
  rewrite Hl in Hl'. injection Hl' as <-.
  exists (selected_index E params (candidates E params)), l.
  split; [exact Hl|]. split; [|split].
  - intros j lj Hj Hlj.
    destruct (PrimFloat.ltb (lane_latency E params l)
                (lane_latency E params lj)) eqn:Hlt; [reflexivity|].
    exfalso.
    assert (Hn1 : is_number (lane_latency E params l)).
    { eapply Forall_lookup_1 in Hnum; [|exact Hl]. exact Hnum. }
    assert (Hn2 : is_number (lane_latency E params lj)).
    { eapply Forall_lookup_1 in Hnum; [|exact Hlj]. exact Hnum. }
    pose proof (double_nlt_eqb _ _ Hn1 Hn2 Hlt (Hlow _ _ Hlj)) as Heq.
    rewrite (Hdist _ _ _ _ (not_eq_sym Hj) Hl Hlj) in Heq. discriminate.
  - intros m. rewrite Hrun. simpl. rewrite calls_since_log_all.
    apply selection_calls_reg_md_map.
  - intros n. apply lane_bit_testbit.
    eapply Forall_lookup_1 in Hvalid; [|exact Hl]. exact Hvalid.
Qed.

(** The scenario of C1: candidates 0, 1, 2 with latencies 120, 45, 80. *)
Lemma priority_init_priv_selects_min_latency_witness :
  exists i l,
    [0; 1; 2] !! i = Some l /\
    (forall j lj, j <> i -> [0; 1; 2] !! j = Some lj ->
       PrimFloat.ltb (perf_120_45_80 l).2 (perf_120_45_80 lj).2 = true) /\
    (forall m,
       reg_md_map_call m ∈
         calls_since fresh_world
           (ucp_proto_priority_init_priv
              (sample_config [0; 1; 2] perf_120_45_80 UCS_OK true)
              (sample_params 1) fresh_world).2
       <-> m = lane_bit (sample_config [0; 1; 2] perf_120_45_80 UCS_OK true)
                 l) /\
    (forall n,
       Z.testbit
         (lane_bit (sample_config [0; 1; 2] perf_120_45_80 UCS_OK true) l) n
       = (l =? n)).
Proof.
  apply (priority_init_priv_selects_min_latency
           (sample_config [0; 1; 2] perf_120_45_80 UCS_OK true)
           (sample_params 1) fresh_world).
  - discriminate.
  - repeat constructor.
  - repeat (apply Forall_cons_2; [vm_compute; reflexivity|]). apply Forall_nil_2.
  - intros i j li lj Hij Hi Hj.
    destruct i as [|[|[|i]]]; try discriminate Hi;
      destruct j as [|[|[|j]]]; try discriminate Hj;
      try (exfalso; apply Hij; reflexivity);
      injection Hi as <-; injection Hj as <-; vm_compute; reflexivity.
  - repeat (apply Forall_cons_2; [simpl; lia|]). apply Forall_nil_2.
Defined.

(** The scenario, evaluated: index 1 is selected, the lane map is
    [UCS_BIT(1)] and, whatever the result, [priv] is left as it was. *)
Example priority_init_priv_120_45_80 :
  ucp_proto_priority_init_priv
    (sample_config [0; 1; 2] perf_120_45_80 UCS_OK true)
    (sample_params 1) fresh_world =
  (UCS_OK,
   {| calls :=
        [find_lanes_call 0 0 16 0;
         get_lane_perf_call 0 UCS_OK (Some 1%positive);
         get_lane_perf_call 1 UCS_OK (Some 2%positive);
         get_lane_perf_call 2 UCS_OK (Some 3%positive);
         reg_md_map_call 2;
         perf_node_ref_call (Some 2%positive);
         init_caps_call None (Some 2%positive) 2 UCS_OK;
         perf_node_deref_call (Some 1%positive);
         perf_node_deref_call (Some 2%positive);
         perf_node_deref_call (Some 3%positive);
         perf_node_deref_call (Some 2%positive)];
      priv := None;
      priv_size := None |}).
Proof. vm_compute. reflexivity. Qed.

(** C4.  For a non-empty candidate list on which every query succeeds (the
    latencies being numbers), the selected candidate has the least latency
    and no candidate before it in catalog order has a latency equal to it:
    among tied candidates the earliest is selected.  The selected candidate
    is the same in every run on these inputs. *)
Theorem priority_init_priv_tie_earliest
    (E : collaborators) (params : ucp_proto_priority_init_params_t) :
  candidates E params <> [] ->
  Forall (fun l => lane_status E params l = UCS_OK) (candidates E params) ->
  Forall (fun l => is_number (lane_latency E params l))
    (candidates E params) ->
  exists i l,
    candidates E params !! i = Some l /\
    (forall j lj, candidates E params !! j = Some lj ->
       PrimFloat.ltb (lane_latency E params lj) (lane_latency E params l)
       = false) /\
    (forall j lj, candidates E params !! j = Some lj ->
       PrimFloat.eqb (lane_latency E params lj) (lane_latency E params l)
       = true -> (i <= j)%nat) /\
    (forall w m,
       reg_md_map_call m ∈
         calls_since w (ucp_proto_priority_init_priv E params w).2
       <-> m = lane_bit E l).
Proof.
  intros Hne Hok Hnum.
  destruct (selected_index_least E params Hne Hok Hnum)
    as (l & Hl & Hlow & Hup).
  exists (selected_index E params (candidates E params)), l.
  split; [exact Hl|]. split; [exact Hlow|]. split.
  - intros j lj Hlj Heq.
    destruct (decide (j < selected_index E params (candidates E params))%nat)
      as [Hlt|Hge]; [|lia].
    pose proof (Hup _ _ Hlt Hlj) as Habove.
    rewrite (double_eqb_ltb_r _ _ Heq) in Habove. discriminate.
  - intros w m.
    destruct (init_priv_selects E params w Hne Hok) as (l' & Hl' & Hrun).
    rewrite Hl in Hl'. injection Hl' as <-.
    rewrite Hrun. simpl. rewrite calls_since_log_all.
    apply selection_calls_reg_md_map.
Qed.

(** Lanes 1 and 2 tie on the least latency 45. *)
Lemma priority_init_priv_tie_earliest_witness :
  exists i l,
    [0; 1; 2] !! i = Some l /\
    (forall j lj, [0; 1; 2] !! j = Some lj ->
       PrimFloat.ltb (perf_80_45_45 lj).2 (perf_80_45_45 l).2 = false) /\
    (forall j lj, [0; 1; 2] !! j = Some lj ->
       PrimFloat.eqb (perf_80_45_45 lj).2 (perf_80_45_45 l).2 = true ->
       (i <= j)%nat) /\
    (forall w m,
       reg_md_map_call m ∈
         calls_since w
           (ucp_proto_priority_init_priv
              (sample_config [0; 1; 2] perf_80_45_45 UCS_OK true)
              (sample_params 1) w).2
       <-> m = lane_bit (sample_config [0; 1; 2] perf_80_45_45 UCS_OK true)
                 l).
Proof.
  apply (priority_init_priv_tie_earliest
           (sample_config [0; 1; 2] perf_80_45_45 UCS_OK true)
           (sample_params 1)).
  - discriminate.
  - repeat constructor.
  - repeat (apply Forall_cons_2; [vm_compute; reflexivity|]).
    apply Forall_nil_2.
Defined.

(** The tie, evaluated: lane 1 is selected, not lane 2. *)
Example priority_init_priv_80_45_45 :
  calls (ucp_proto_priority_init_priv
           (sample_config [0; 1; 2] perf_80_45_45 UCS_OK true)
           (sample_params 1) fresh_world).2 !! 4%nat =
  Some (reg_md_map_call (UCS_BIT 1)).
Proof. vm_compute. reflexivity. Qed.

(** C10.  For a non-empty candidate list on which every query succeeds,
    whatever the latencies are (infinite, NaN), exactly one candidate is
    selected and the lane map has exactly one bit set (the lanes being valid
    positions of a lane map); when no latency is below [INFINITY] the
    selected candidate is the one at index 0. *)
Theorem priority_init_priv_selects_one
    (E : collaborators) (params : ucp_proto_priority_init_params_t)
    (w : world) :
  candidates E params <> [] ->
  Forall (fun l => lane_status E params l = UCS_OK) (candidates E params) ->
  Forall (fun l => 0 <= l < ucp_lane_map_bits E) (candidates E params) ->
  exists i l,
    candidates E params !! i = Some l /\
    (forall m, reg_md_map_call m ∈
                 calls_since w (ucp_proto_priority_init_priv E params w).2
               <-> m = lane_bit E l) /\
    popcount (lane_bit E l) = 1%nat /\
    (Forall (fun k => PrimFloat.ltb (lane_latency E params k) INFINITY
                      = false) (candidates E params) ->
     i = 0%nat).
Proof.
  intros Hne Hok Hvalid.
  destruct (init_priv_selects E params w Hne Hok) as (l & Hl & Hrun).
  exists (selected_index E params (candidates E params)), l.
  split; [exact Hl|]. split; [|split].
  - intros m. rewrite Hrun. simpl. rewrite calls_since_log_all.
    apply selection_calls_reg_md_map.
  - apply lane_bit_popcount.
    eapply Forall_lookup_1 in Hvalid; [|exact Hl]. exact Hvalid.
  - intros Hinf. rewrite selected_index_argmin by exact Hok.
    rewrite argmin_scan_none_below; [reflexivity|].
    by apply Forall_fmap.
Qed.

(** [INFINITY] on the lanes 3 and 5: nothing is below the initial
    minimum. *)
Lemma priority_init_priv_selects_one_witness :
  exists i l,
    [3; 5] !! i = Some l /\
    (forall m,
       reg_md_map_call m ∈
         calls_since fresh_world
           (ucp_proto_priority_init_priv
              (sample_config [3; 5] perf_nan_inf UCS_OK true)
              (sample_params 1) fresh_world).2
       <-> m = lane_bit (sample_config [3; 5] perf_nan_inf UCS_OK true) l) /\
    popcount (lane_bit (sample_config [3; 5] perf_nan_inf UCS_OK true) l)
    = 1%nat /\
    (Forall (fun k => PrimFloat.ltb (perf_nan_inf k).2 INFINITY = false)
       [3; 5] ->
     i = 0%nat).
Proof.
  apply (priority_init_priv_selects_one
           (sample_config [3; 5] perf_nan_inf UCS_OK true)
           (sample_params 1) fresh_world).
  - discriminate.
  - repeat constructor.
  - repeat (apply Forall_cons_2; [simpl; lia|]). apply Forall_nil_2.
Defined.

(** C5.  When the lane lookup returns no candidate,
    [ucp_proto_priority_init_priv] returns [UCS_ERR_NO_ELEM]; the lookup is
    the only call of the run, so no query is issued and no reference is taken
    or dropped, and neither [priv] nor the size cell is written. *)
Theorem priority_init_priv_no_lanes
    (E : collaborators) (params : ucp_proto_priority_init_params_t)
    (w : world) :
  candidates E params = [] ->
  (ucp_proto_priority_init_priv E params w).1 = UCS_ERR_NO_ELEM /\
  calls_since w (ucp_proto_priority_init_priv E params w).2 =
    [the_find_lanes_call E params] /\
  acquisitions (calls_since w (ucp_proto_priority_init_priv E params w).2)
    = 0%nat /\
  releasings (calls_since w (ucp_proto_priority_init_priv E params w).2)
    = 0%nat /\
  priv (ucp_proto_priority_init_priv E params w).2 = priv w /\
  priv_size (ucp_proto_priority_init_priv E params w).2 = priv_size w.
Proof.
  intros Hnil. rewrite (init_priv_no_candidate E params w Hnil). simpl.
  rewrite calls_since_log_all. repeat split.
Qed.

Lemma priority_init_priv_no_lanes_witness :
  (ucp_proto_priority_init_priv
     (sample_config [] perf_120_45_80 UCS_OK true) (sample_params 1)
     fresh_world).1 = UCS_ERR_NO_ELEM /\
  calls_since fresh_world
    (ucp_proto_priority_init_priv
       (sample_config [] perf_120_45_80 UCS_OK true) (sample_params 1)
       fresh_world).2 = [find_lanes_call 0 0 16 0] /\
  acquisitions
    (calls_since fresh_world
       (ucp_proto_priority_init_priv
          (sample_config [] perf_120_45_80 UCS_OK true) (sample_params 1)
          fresh_world).2) = 0%nat /\
  releasings
    (calls_since fresh_world
       (ucp_proto_priority_init_priv
          (sample_config [] perf_120_45_80 UCS_OK true) (sample_params 1)
          fresh_world).2) = 0%nat /\
  priv (ucp_proto_priority_init_priv
          (sample_config [] perf_120_45_80 UCS_OK true) (sample_params 1)
          fresh_world).2 = None /\
  priv_size (ucp_proto_priority_init_priv
               (sample_config [] perf_120_45_80 UCS_OK true) (sample_params 1)
               fresh_world).2 = None.
Proof.
  apply (priority_init_priv_no_lanes
           (sample_config [] perf_120_45_80 UCS_OK true) (sample_params 1)
           fresh_world).
  reflexivity.
Defined.

(** Every latency is a NaN or infinite: lane 3, at index 0, is selected. *)
Example priority_init_priv_nan_inf :
  calls (ucp_proto_priority_init_priv
           (sample_config [3; 5] perf_nan_inf UCS_OK true)
           (sample_params 1) fresh_world).2 !! 3%nat =
  Some (reg_md_map_call (UCS_BIT 3)).
Proof. vm_compute. reflexivity. Qed.

(** A run in which every query succeeds drops as many references as it
    takes, whatever the aggregator answers. *)
Lemma init_priv_balanced (E : collaborators)
    (params : ucp_proto_priority_init_params_t) (w : world) :
  candidates E params <> [] ->
  Forall (fun l => lane_status E params l = UCS_OK) (candidates E params) ->
  acquisitions (calls_since w (ucp_proto_priority_init_priv E params w).2) =
  releasings (calls_since w (ucp_proto_priority_init_priv E params w).2).
Proof.
  intros Hne Hok.
  destruct (init_priv_selects E params w Hne Hok) as (l & _ & ->). simpl.
  rewrite calls_since_log_all. by apply selection_calls_balanced.
Qed.

(** C2.  The provider fails on the second of three candidates: the function
    returns the provider's error, and the reference it holds on the first
    candidate's node is not dropped: one reference taken, none dropped. *)
Theorem priority_init_priv_query_failure_leaks :
  (ucp_proto_priority_init_priv
     (sample_config [0; 1; 2] perf_fail_second UCS_OK true)
     (sample_params 1) fresh_world).1 = UCS_ERR_NO_DEVICE /\
  calls (ucp_proto_priority_init_priv
           (sample_config [0; 1; 2] perf_fail_second UCS_OK true)
           (sample_params 1) fresh_world).2 =
    [find_lanes_call 0 0 16 0;
     get_lane_perf_call 0 UCS_OK (Some 1%positive);
     get_lane_perf_call 1 UCS_ERR_NO_DEVICE None] /\
  acquisitions
    (calls (ucp_proto_priority_init_priv
              (sample_config [0; 1; 2] perf_fail_second UCS_OK true)
              (sample_params 1) fresh_world).2) = 1%nat /\
  releasings
    (calls (ucp_proto_priority_init_priv
              (sample_config [0; 1; 2] perf_fail_second UCS_OK true)
              (sample_params 1) fresh_world).2) = 0%nat.
Proof. vm_compute. repeat split. Qed.

(** C3.  On the scenario with latencies 120, 45, 80 the function returns
    [UCS_OK] and the caller's [priv] structure is still unwritten: none of
    its members was assigned. *)
Theorem priority_init_priv_leaves_priv_unwritten :
  (ucp_proto_priority_init_priv
     (sample_config [0; 1; 2] perf_120_45_80 UCS_OK true)
     (sample_params 1) fresh_world).1 = UCS_OK /\
  priv (ucp_proto_priority_init_priv
          (sample_config [0; 1; 2] perf_120_45_80 UCS_OK true)
          (sample_params 1) fresh_world).2 = None.
Proof. vm_compute. split; reflexivity. Qed.

(** ** Claims on [ucp_proto_priority_init] *)

(** C7.  When the error-handling predicate rejects the configuration,
    [ucp_proto_priority_init] returns [UCS_ERR_UNSUPPORTED]; the predicate
    is the only call of the run, so there is no lane lookup, no query and no
    reference taken, and no caller cell is written. *)
Theorem priority_init_unsupported
    (E : collaborators) (params : ucp_proto_priority_init_params_t)
    (w : world) :
  ucp_proto_common_init_check_err_handling E (super params) = false ->
  (ucp_proto_priority_init E params w).1 = UCS_ERR_UNSUPPORTED /\
  calls_since w (ucp_proto_priority_init E params w).2 =
    [init_check_err_handling_call] /\
  acquisitions (calls_since w (ucp_proto_priority_init E params w).2)
    = 0%nat /\
  priv (ucp_proto_priority_init E params w).2 = priv w /\
  priv_size (ucp_proto_priority_init E params w).2 = priv_size w.
Proof.
  intros Hcheck. unfold ucp_proto_priority_init. rewrite Hcheck. simpl.
  rewrite log_as_log_all, calls_since_log_all. repeat split.
Qed.

Lemma priority_init_unsupported_witness :
  (ucp_proto_priority_init
     (sample_config [0; 1; 2] perf_120_45_80 UCS_OK false)
     (sample_params 1) fresh_world).1 = UCS_ERR_UNSUPPORTED /\
  calls_since fresh_world
    (ucp_proto_priority_init
       (sample_config [0; 1; 2] perf_120_45_80 UCS_OK false)
       (sample_params 1) fresh_world).2 = [init_check_err_handling_call] /\
  acquisitions
    (calls_since fresh_world
       (ucp_proto_priority_init
          (sample_config [0; 1; 2] perf_120_45_80 UCS_OK false)
          (sample_params 1) fresh_world).2) = 0%nat /\
  priv (ucp_proto_priority_init
          (sample_config [0; 1; 2] perf_120_45_80 UCS_OK false)
          (sample_params 1) fresh_world).2 = None /\
  priv_size (ucp_proto_priority_init
               (sample_config [0; 1; 2] perf_120_45_80 UCS_OK false)
               (sample_params 1) fresh_world).2 = None.
Proof.
  apply (priority_init_unsupported
           (sample_config [0; 1; 2] perf_120_45_80 UCS_OK false)
           (sample_params 1) fresh_world).
  reflexivity.
Defined.

(** C6, as stated, fails: with no priority lane requested and an
    error-handling requirement that cannot be met, the result is
    [UCS_ERR_UNSUPPORTED], not success. *)
Lemma priority_init_bypass_counterexample :
  ~ (forall (E : collaborators) (params : ucp_proto_priority_init_params_t)
       (w : world),
       num_priority_lanes (common_super (super params)) = 0 ->
       (ucp_proto_priority_init E params w).1 = UCS_OK).
Proof.
  intros H.
  specialize (H (sample_config [0; 1; 2] perf_120_45_80 UCS_OK false)
                (sample_params 0) fresh_world eq_refl).
  vm_compute in H. discriminate H.
Qed.

(** C6, amended.  When the error-handling check passes and no priority lane
    is requested, [ucp_proto_priority_init] returns [UCS_OK] without lane
    selection: the check is the only call of the run, no reference is taken
    or dropped, and neither [priv] nor the size cell is written. *)
Theorem priority_init_bypass
    (E : collaborators) (params : ucp_proto_priority_init_params_t)
    (w : world) :
  ucp_proto_common_init_check_err_handling E (super params) = true ->
  num_priority_lanes (common_super (super params)) = 0 ->
  (ucp_proto_priority_init E params w).1 = UCS_OK /\
  calls_since w (ucp_proto_priority_init E params w).2 =
    [init_check_err_handling_call] /\
  acquisitions (calls_since w (ucp_proto_priority_init E params w).2)
    = 0%nat /\
  releasings (calls_since w (ucp_proto_priority_init E params w).2)
    = 0%nat /\
  priv (ucp_proto_priority_init E params w).2 = priv w /\
  priv_size (ucp_proto_priority_init E params w).2 = priv_size w.
Proof.
  intros Hcheck Hzero. unfold ucp_proto_priority_init.
  rewrite Hcheck, Hzero. simpl.
  rewrite log_as_log_all, calls_since_log_all. repeat split.
Qed.

Lemma priority_init_bypass_witness :
  (ucp_proto_priority_init
     (sample_config [0; 1; 2] perf_120_45_80 UCS_OK true)
     (sample_params 0) fresh_world).1 = UCS_OK /\
  calls_since fresh_world
    (ucp_proto_priority_init
       (sample_config [0; 1; 2] perf_120_45_80 UCS_OK true)
       (sample_params 0) fresh_world).2 = [init_check_err_handling_call] /\
  acquisitions
    (calls_since fresh_world
       (ucp_proto_priority_init
          (sample_config [0; 1; 2] perf_120_45_80 UCS_OK true)
          (sample_params 0) fresh_world).2) = 0%nat /\
  releasings
    (calls_since fresh_world
       (ucp_proto_priority_init
          (sample_config [0; 1; 2] perf_120_45_80 UCS_OK true)
          (sample_params 0) fresh_world).2) = 0%nat /\
  priv (ucp_proto_priority_init
          (sample_config [0; 1; 2] perf_120_45_80 UCS_OK true)
          (sample_params 0) fresh_world).2 = None /\
  priv_size (ucp_proto_priority_init
               (sample_config [0; 1; 2] perf_120_45_80 UCS_OK true)
               (sample_params 0) fresh_world).2 = None.
Proof.
  apply (priority_init_bypass
           (sample_config [0; 1; 2] perf_120_45_80 UCS_OK true)
           (sample_params 0) fresh_world); reflexivity.
Defined.

(** Past the two guards, [ucp_proto_priority_init] is
    [ucp_proto_priority_init_priv] followed by the write of the size cell on
    success. *)
Lemma priority_init_selection (E : collaborators)
    (params : ucp_proto_priority_init_params_t) (w : world) :
  ucp_proto_common_init_check_err_handling E (super params) = true ->
  num_priority_lanes (common_super (super params)) <> 0 ->
  ucp_proto_priority_init E params w =
  ((ucp_proto_priority_init_priv E params
      (log init_check_err_handling_call w)).1,
   if decide ((ucp_proto_priority_init_priv E params
                 (log init_check_err_handling_call w)).1 = UCS_OK)
   then set_priv_size (sizeof_ucp_proto_priority_priv_t E)
          (ucp_proto_priority_init_priv E params
             (log init_check_err_handling_call w)).2
   else (ucp_proto_priority_init_priv E params
           (log init_check_err_handling_call w)).2).
Proof.
  intros Hcheck Hlanes. unfold ucp_proto_priority_init.
  rewrite Hcheck. simpl. rewrite decide_False by exact Hlanes.
  destruct (ucp_proto_priority_init_priv E params _) as [status w1]. simpl.
  destruct (decide (status <> UCS_OK)) as [Hne|He].
  - by rewrite decide_False.
  - apply dec_stable in He. subst status. by rewrite decide_True.
Qed.



(** The aggregator succeeds: the size cell is written. *)
Example priority_init_caps_ok :
  (ucp_proto_priority_init
     (sample_config [0; 1; 2] perf_120_45_80 UCS_OK true)
     (sample_params 1) fresh_world).1 = UCS_OK /\
  priv_size (ucp_proto_priority_init
               (sample_config [0; 1; 2] perf_120_45_80 UCS_OK true)
               (sample_params 1) fresh_world).2 = Some 24.
Proof. vm_compute. split; reflexivity. Qed.

(** The aggregator fails: its status comes back and the size cell is not
    written. *)
Example priority_init_caps_failed :
  (ucp_proto_priority_init
     (sample_config [0; 1; 2] perf_120_45_80 (UCS_ERR_OTHER (-4)) true)
     (sample_params 1) fresh_world).1 = UCS_ERR_OTHER (-4) /\
  priv_size (ucp_proto_priority_init
               (sample_config [0; 1; 2] perf_120_45_80 (UCS_ERR_OTHER (-4))
                  true)
               (sample_params 1) fresh_world).2 = None.
Proof. vm_compute. split; reflexivity. Qed.

(** ** The decorator macro *)

(** No text in which a brace follows the declarator at once is an external
    definition. *)
Lemma brace_after_declarator (ts words rest : list token) :
  leading_words ts = (words, punct LBRACE :: rest) ->
  parse_external_definition ts = None.
Proof.
  intros H. unfold parse_external_definition. rewrite H.
  by destruct (specifiers_and_name words) as [[? ?]|].
Qed.

(** C8.  The macro [UCP_PRIORITY_PROTO_DECL] produces no descriptor.  Of the
    three external definitions of its replacement list the first two are
    the functions [_proto ## _priority_init] and [_proto ## _priority_query];
    in the third the brace of the initialiser follows the declarator
    [_proto ## __priority] with no [=] between them, so the text defines
    nothing, for every argument of the macro.  With the [=] in place the
    same text defines an object of type [ucp_proto_t] whose [name], [desc],
    [progress], [abort] and [reset] are those of [_proto], whose [flags] are
    [_proto.flags | UCP_PROTO_FLAG_PRIORITY] and whose [init] and [query] are
    the two functions. *)
Theorem priority_decl_defines_no_descriptor (_proto : string) :
  defines <$> UCP_PRIORITY_PROTO_DECL _proto =
    [Some (_proto ++ "_priority_init")%string;
     Some (_proto ++ "_priority_query")%string;
     None] /\
  (exists rest,
     leading_words (priority_descriptor_text _proto) =
       ([identifier "ucp_proto_t"; identifier (_proto ++ "__priority")],
        punct LBRACE :: rest)) /\
  parse_external_definition (with_assign (priority_descriptor_text _proto)) =
    Some (object_definition [identifier "ucp_proto_t"]
            (_proto ++ "__priority")
            (Some [ {| member := "name"; value := member_of _proto "name" |};
                    {| member := "desc"; value := member_of _proto "desc" |};
                    {| member := "flags";
                       value := member_of _proto "flags" ++
                                [punct BAR;
                                 identifier "UCP_PROTO_FLAG_PRIORITY"] |};
                    {| member := "init";
                       value := [identifier (_proto ++ "_priority_init")] |};
                    {| member := "query";
                       value := [identifier (_proto ++ "_priority_query")] |};
                    {| member := "progress";
                       value := member_of _proto "progress" |};
                    {| member := "abort";
                       value := member_of _proto "abort" |};
                    {| member := "reset";
                       value := member_of _proto "reset" |} ])).
Proof.
  split; [reflexivity|]. split; [|reflexivity].
  eexists. reflexivity.
Qed.

(** The macro applied to a descriptor named [ucp_eager_proto]. *)
Example priority_decl_eager :
  parse_external_definition (priority_descriptor_text "ucp_eager_proto")
    = None /\
  (leading_words (priority_descriptor_text "ucp_eager_proto")).2 !! 0%nat
    = Some (punct LBRACE).
Proof. split; reflexivity. Qed.

(** ** More on [ucp_proto_priority_init_priv] *)

Section QueryFailure.

Variable E : collaborators.
Variable params : ucp_proto_priority_init_params_t.

Lemma scan_lanes_fail_status (pre post : list ucp_lane_index_t)
    (bad : ucp_lane_index_t) (i : nat) (st : scan_state) (w : world) :
  Forall (fun l => lane_status E params l = UCS_OK) pre ->
  lane_status E params bad <> UCS_OK ->
  (scan_lanes E params (pre ++ bad :: post) i st w).1.1 =
  lane_status E params bad.
Proof.
  intros Hpre Hbad. revert i st w.
  induction Hpre as [|l rest Hl _ IH]; intros i st w; simpl.
  - rewrite (provider_eta E params bad).
    by rewrite decide_True by exact Hbad.
  - rewrite (provider_eta E params l).
    rewrite decide_False by (intros Hne; by apply Hne).
    apply IH.
Qed.

Lemma query_calls_fail (pre post : list ucp_lane_index_t)
    (bad : ucp_lane_index_t) :
  Forall (fun l => lane_status E params l = UCS_OK) pre ->
  lane_status E params bad <> UCS_OK ->
  query_calls E params (pre ++ bad :: post) =
  (query_call E params <$> pre) ++ [query_call E params bad].
Proof.
  intros Hpre Hbad. induction Hpre as [|l rest Hl _ IH]; simpl.
  - by rewrite decide_True by exact Hbad.
  - rewrite decide_False by (intros Hne; by apply Hne).
    by rewrite IH.
Qed.

Lemma releasings_queries (ls : list ucp_lane_index_t) :
  releasings (query_call E params <$> ls) = 0%nat.
Proof.
  induction ls as [|k rest IH]; [reflexivity|].
  rewrite fmap_cons. change (?a :: ?x) with ([a] ++ x).
  rewrite releasings_app, IH. reflexivity.
Qed.

End QueryFailure.

(** X1.  When the query of a candidate fails after the queries of all the
    candidates before it succeeded, [ucp_proto_priority_init_priv] returns
    the status of that query unchanged; the candidates after it are never
    queried, neither the registration-map builder nor the aggregator is
    called, and no reference is dropped. *)
Theorem priority_init_priv_query_failure
    (E : collaborators) (params : ucp_proto_priority_init_params_t)
    (w : world) (pre post : list ucp_lane_index_t)
    (bad : ucp_lane_index_t) :
  candidates E params = pre ++ bad :: post ->
  Forall (fun l => lane_status E params l = UCS_OK) pre ->
  lane_status E params bad <> UCS_OK ->
  (ucp_proto_priority_init_priv E params w).1 = lane_status E params bad /\
  calls_since w (ucp_proto_priority_init_priv E params w).2 =
    the_find_lanes_call E params ::
    (query_call E params <$> pre) ++ [query_call E params bad] /\
  releasings (calls_since w (ucp_proto_priority_init_priv E params w).2)
    = 0%nat.
Proof.
  intros Hcand Hpre Hbad.
  assert (Hrun : ucp_proto_priority_init_priv E params w =
                 (lane_status E params bad,
                  log_all (the_find_lanes_call E params ::
                           (query_call E params <$> pre) ++
                           [query_call E params bad]) w)).
  { unfold ucp_proto_priority_init_priv. fold (candidates E params).
    rewrite Hcand.
    rewrite decide_False by (rewrite length_app; simpl; lia).
    pose proof (scan_lanes_world E params (pre ++ bad :: post) 0 scan_init
                  (log (the_find_lanes_call E params) w)) as Hw.
    pose proof (scan_lanes_fail_status E params pre post bad 0 scan_init
                  (log (the_find_lanes_call E params) w) Hpre Hbad) as Hs.
    unfold the_find_lanes_call in Hw, Hs.
    destruct (scan_lanes E params (pre ++ bad :: post) 0 scan_init _)
      as [[status st] w1].
    simpl in Hw, Hs. subst status.
    rewrite decide_True by exact Hbad.
    rewrite Hw, log_all_log.
    by rewrite (query_calls_fail E params pre post bad Hpre Hbad). }
  rewrite Hrun. cbn [fst snd]. rewrite calls_since_log_all.
  split; [reflexivity|]. split; [reflexivity|].
  change (?a :: ?x) with ([a] ++ x).
  rewrite !releasings_app, releasings_queries. reflexivity.
Qed.

Lemma priority_init_priv_query_failure_witness :
  (ucp_proto_priority_init_priv
     (sample_config [0; 1; 2] perf_fail_second UCS_OK true)
     (sample_params 1) fresh_world).1 = UCS_ERR_NO_DEVICE /\
  calls_since fresh_world
    (ucp_proto_priority_init_priv
       (sample_config [0; 1; 2] perf_fail_second UCS_OK true)
       (sample_params 1) fresh_world).2 =
    [find_lanes_call 0 0 16 0;
     get_lane_perf_call 0 UCS_OK (Some 1%positive);
     get_lane_perf_call 1 UCS_ERR_NO_DEVICE None] /\
  releasings
    (calls_since fresh_world
       (ucp_proto_priority_init_priv
          (sample_config [0; 1; 2] perf_fail_second UCS_OK true)
          (sample_params 1) fresh_world).2) = 0%nat.
Proof.
  apply (priority_init_priv_query_failure
           (sample_config [0; 1; 2] perf_fail_second UCS_OK true)
           (sample_params 1) fresh_world [0] [2] 1).
  - reflexivity.
  - repeat constructor.
  - discriminate.
Defined.

(** X2.  A run of [ucp_proto_priority_init_priv] in which every query
    succeeds drops exactly as many references as it takes (one per candidate
    node and the extra one on the selected node), whether the aggregator
    succeeds or fails. *)
Theorem priority_init_priv_complete_run_balanced
    (E : collaborators) (params : ucp_proto_priority_init_params_t)
    (w : world) :
  candidates E params <> [] ->
  Forall (fun l => lane_status E params l = UCS_OK) (candidates E params) ->
  acquisitions (calls_since w (ucp_proto_priority_init_priv E params w).2) =
  releasings (calls_since w (ucp_proto_priority_init_priv E params w).2).
Proof.
  intros Hne Hok.
  destruct (init_priv_selects E params w Hne Hok) as (l & _ & ->).
  cbn [snd]. rewrite calls_since_log_all.
  by apply selection_calls_balanced.
Qed.

(** The aggregator fails: four references taken, four dropped. *)
Lemma priority_init_priv_complete_run_balanced_witness :
  acquisitions
    (calls_since fresh_world
       (ucp_proto_priority_init_priv
          (sample_config [0; 1; 2] perf_120_45_80 (UCS_ERR_OTHER (-4)) true)
          (sample_params 1) fresh_world).2) =
  releasings
    (calls_since fresh_world
       (ucp_proto_priority_init_priv
          (sample_config [0; 1; 2] perf_120_45_80 (UCS_ERR_OTHER (-4)) true)
          (sample_params 1) fresh_world).2).
Proof.
  apply (priority_init_priv_complete_run_balanced
           (sample_config [0; 1; 2] perf_120_45_80 (UCS_ERR_OTHER (-4)) true)
           (sample_params 1) fresh_world).
  - discriminate.
  - repeat constructor.
Defined.

Example priority_init_priv_caps_failed_counts :
  acquisitions
    (calls (ucp_proto_priority_init_priv
              (sample_config [0; 1; 2] perf_120_45_80 (UCS_ERR_OTHER (-4))
                 true)
              (sample_params 1) fresh_world).2) = 4%nat.
Proof. vm_compute. reflexivity. Qed.

(** X3.  In a run in which every query succeeds the aggregator is called
    once, with the node the provider returned for the selected lane and the
    registration map of the lane map holding that lane's bit; the tuple
    passed as [perf] was never assigned; the result of the run is the status
    of that call. *)
Theorem priority_init_priv_aggregator_arguments
    (E : collaborators) (params : ucp_proto_priority_init_params_t)
    (w : world) :
  candidates E params <> [] ->
  Forall (fun l => lane_status E params l = UCS_OK) (candidates E params) ->
  exists l,
    candidates E params !! selected_index E params (candidates E params)
      = Some l /\
    (forall perf node reg status,
       init_caps_call perf node reg status ∈
         calls_since w (ucp_proto_priority_init_priv E params w).2 <->
       perf = None /\ node = lane_node E params l /\
       reg = ucp_proto_common_reg_md_map E (super params) (lane_bit E l) /\
       status = (ucp_proto_priority_init_priv E params w).1) /\
    (forall node,
       perf_node_ref_call node ∈
         calls_since w (ucp_proto_priority_init_priv E params w).2 <->
       node = lane_node E params l).
Proof.
  intros Hne Hok.
  destruct (init_priv_selects E params w Hne Hok) as (l & Hl & ->).
  exists l. split; [exact Hl|]. cbn [fst snd].
  rewrite calls_since_log_all. split.
  - intros perf node reg status. apply selection_calls_init_caps.
  - intros node. unfold selection_calls, the_find_lanes_call.
    rewrite elem_of_cons, !elem_of_app, !list_elem_of_fmap.
    rewrite !elem_of_cons, elem_of_nil. split.
    + intros [H|[(k & H & _)|[[H|[H|[H|H]]]|[(k & H & _)|[H|H]]]]];
        try discriminate; try done. by injection H.
    + intros ->. right. right. left. right. by left.
Qed.

Lemma priority_init_priv_aggregator_arguments_witness :
  exists l,
    [0; 1; 2] !! selected_index
                   (sample_config [0; 1; 2] perf_120_45_80 UCS_OK true)
                   (sample_params 1) [0; 1; 2] = Some l /\
    (forall perf node reg status,
       init_caps_call perf node reg status ∈
         calls_since fresh_world
           (ucp_proto_priority_init_priv
              (sample_config [0; 1; 2] perf_120_45_80 UCS_OK true)
              (sample_params 1) fresh_world).2 <->
       perf = None /\ node = Some (Z.to_pos (l + 1)) /\
       reg = lane_bit (sample_config [0; 1; 2] perf_120_45_80 UCS_OK true) l
       /\
       status = (ucp_proto_priority_init_priv
                   (sample_config [0; 1; 2] perf_120_45_80 UCS_OK true)
                   (sample_params 1) fresh_world).1) /\
    (forall node,
       perf_node_ref_call node ∈
         calls_since fresh_world
           (ucp_proto_priority_init_priv
              (sample_config [0; 1; 2] perf_120_45_80 UCS_OK true)
              (sample_params 1) fresh_world).2 <->
       node = Some (Z.to_pos (l + 1))).
Proof.
  apply (priority_init_priv_aggregator_arguments
           (sample_config [0; 1; 2] perf_120_45_80 UCS_OK true)
           (sample_params 1) fresh_world).
  - discriminate.
  - repeat constructor.
Defined.

(** X4.  [ucp_proto_priority_init_priv] writes neither the [priv] structure
    nor the size cell, on any input and whatever it returns. *)
Theorem priority_init_priv_writes_no_cell
    (E : collaborators) (params : ucp_proto_priority_init_params_t)
    (w : world) :
  priv (ucp_proto_priority_init_priv E params w).2 = priv w /\
  priv_size (ucp_proto_priority_init_priv E params w).2 = priv_size w.
Proof. apply init_priv_cells. Qed.

(** X5.  [ucp_proto_priority_init_priv] returns [UCS_OK] only when there is
    a candidate, every query succeeded and the aggregator, called for the
    candidate at the selected index, returned [UCS_OK]. *)
Theorem priority_init_priv_ok_inv
    (E : collaborators) (params : ucp_proto_priority_init_params_t)
    (w : world) :
  (ucp_proto_priority_init_priv E params w).1 = UCS_OK ->
  candidates E params <> [] /\
  Forall (fun l => lane_status E params l = UCS_OK) (candidates E params) /\
  exists l,
    candidates E params !! selected_index E params (candidates E params)
      = Some l /\
    caps_status E params l = UCS_OK.
Proof.
  intros Hok.
  destruct (decide (candidates E params = [])) as [Hnil|Hne].
  { rewrite (init_priv_no_candidate E params w Hnil) in Hok. discriminate. }
  destruct (decide (Forall (fun l => lane_status E params l = UCS_OK)
                      (candidates E params))) as [Hall|Hbad].
  - split; [exact Hne|]. split; [exact Hall|].
    destruct (init_priv_selects E params w Hne Hall) as (l & Hl & Hrun).
    rewrite Hrun in Hok. by exists l.
  - destruct (init_priv_query_failed E params w Hne Hbad) as (s & Hs & Hrun).
    rewrite Hrun in Hok. simpl in Hok. by subst s.
Qed.

Lemma priority_init_priv_ok_inv_witness :
  [0; 1; 2] <> [] /\
  Forall (fun l => (perf_120_45_80 l).1 = UCS_OK) [0; 1; 2] /\
  exists l,
    [0; 1; 2] !! selected_index
                   (sample_config [0; 1; 2] perf_120_45_80 UCS_OK true)
                   (sample_params 1) [0; 1; 2] = Some l /\
    caps_status (sample_config [0; 1; 2] perf_120_45_80 UCS_OK true)
      (sample_params 1) l = UCS_OK.
Proof.
  apply (priority_init_priv_ok_inv
           (sample_config [0; 1; 2] perf_120_45_80 UCS_OK true)
           (sample_params 1) fresh_world).
  vm_compute. reflexivity.
Defined.

(** ** Latencies that are not numbers *)

Lemma double_ltb_number_l (x y : double) :
  PrimFloat.ltb x y = true -> is_number x.
Proof.
  intros H. destruct (PrimFloat.is_nan x) eqn:N; [|exact N].
  rewrite double_ltb_nan_l in H; [discriminate|].
  unfold is_number. congruence.
Qed.

Lemma scan_inv_any_init : scan_inv_any [] (INFINITY, 0%nat).
Proof.
  repeat split; simpl; try (intros; discriminate). by right.
Qed.

Lemma scan_inv_any_step (visited : list double) (acc : double * nat)
    (x : double) :
  scan_inv_any visited acc ->
  scan_inv_any (visited ++ [x])
    (if double_gt acc.1 x then (x, length visited) else acc).
Proof.
  intros (Hm & Hlow & Hup & Hat). unfold double_gt.
  destruct (PrimFloat.ltb x acc.1) eqn:Hlt.
  - pose proof (double_ltb_number_l _ _ Hlt) as Hx.
    repeat split; simpl.
    + exact Hx.
    + intros j y Hj. apply lookup_app_Some in Hj as [Hj|[_ Hj]].
      * apply not_true_is_false. intros Hyx.
        pose proof (double_ltb_trans _ _ _ Hyx Hlt) as Hym.
        rewrite (Hlow _ _ Hj) in Hym. discriminate.
      * apply list_lookup_singleton_Some in Hj as [_ <-].
        apply double_ltb_irrefl.
    + intros j y Hjlt Hj Hy. rewrite lookup_app_l in Hj by exact Hjlt.
      destruct (PrimFloat.ltb x y) eqn:Hxy; [reflexivity|].
      rewrite (double_nlt_trans x y acc.1 Hx Hy Hm Hxy (Hlow _ _ Hj)) in Hlt.
      discriminate.
    + left. by rewrite lookup_app_r, Nat.sub_diag.
  - repeat split.
    + exact Hm.
    + intros j y Hj. apply lookup_app_Some in Hj as [Hj|[_ Hj]].
      * eauto.
      * by apply list_lookup_singleton_Some in Hj as [_ <-].
    + intros j y Hjlt Hj Hy. apply Hup with j; [exact Hjlt| |exact Hy].
      apply lookup_app_Some in Hj as [Hj|[Hge Hj]]; [exact Hj|].
      exfalso. destruct Hat as [Hat|[H0 _]].
      * apply lookup_lt_Some in Hat. lia.
      * lia.
    + destruct Hat as [Hat|Hat]; [left | by right].
      by apply lookup_app_l_Some.
Qed.

Lemma argmin_scan_inv_any (todo visited : list double) (acc : double * nat) :
  scan_inv_any visited acc ->
  scan_inv_any (visited ++ todo) (argmin_scan todo (length visited) acc).
Proof.
  revert visited acc.
  induction todo as [|x rest IH]; intros visited acc Hinv; simpl.
  - by rewrite app_nil_r.
  - replace (visited ++ x :: rest) with ((visited ++ [x]) ++ rest)
      by (by rewrite <- app_assoc).
    replace (S (length visited)) with (length (visited ++ [x]))
      by (rewrite length_app; simpl; lia).
    apply IH. by apply scan_inv_any_step.
Qed.

(** As soon as one latency is below [INFINITY], the scan ends on a number
    below [INFINITY] that no latency is below, at the first position among
    the numbers that hold it. *)
Lemma argmin_scan_below (lats : list double) :
  Exists (fun x => PrimFloat.ltb x INFINITY = true) lats ->
  exists x,
    lats !! (argmin_scan lats 0 (INFINITY, 0%nat)).2 = Some x /\
    is_number x /\
    PrimFloat.ltb x INFINITY = true /\
    (forall j y, lats !! j = Some y -> PrimFloat.ltb y x = false) /\
    (forall j y, (j < (argmin_scan lats 0 (INFINITY, 0%nat)).2)%nat ->
       lats !! j = Some y -> is_number y -> PrimFloat.ltb x y = true).
Proof.
  intros Hex.
  pose proof (argmin_scan_inv_any lats [] (INFINITY, 0%nat) scan_inv_any_init)
    as (Hm & Hlow & Hup & Hat).
  simpl in *.
  apply Exists_exists in Hex as (k & Hk & Hkinf).
  apply list_elem_of_lookup in Hk as [jk Hjk].
  pose proof (Hlow _ _ Hjk) as Hkm.
  destruct Hat as [Hat|[_ Hinf]].
  - eexists. split; [exact Hat|]. split; [exact Hm|].
    split; [|split; assumption].
    destruct (PrimFloat.ltb (argmin_scan lats 0 (INFINITY, 0%nat)).1
                INFINITY) eqn:Hminf; [reflexivity|].
    rewrite (double_nlt_trans k _ INFINITY
               (double_ltb_number_l _ _ Hkinf) Hm eq_refl Hkm Hminf)
      in Hkinf.
    discriminate.
  - rewrite Hinf in Hkm. rewrite Hkm in Hkinf. discriminate.
Qed.

(** X6.  Latencies that are NaN are passed over.  Where every query
    succeeds and at least one candidate has a latency below [INFINITY], the
    selected candidate's latency is a number below [INFINITY], no candidate's
    latency is below it, and every candidate before it in catalog order whose
    latency is a number has a strictly greater one; the lane map holds the
    bit of that candidate in every run. *)
Theorem priority_init_priv_skips_nan
    (E : collaborators) (params : ucp_proto_priority_init_params_t) :
  Forall (fun l => lane_status E params l = UCS_OK) (candidates E params) ->
  Exists (fun l => PrimFloat.ltb (lane_latency E params l) INFINITY = true)
    (candidates E params) ->
  exists i l,
    candidates E params !! i = Some l /\
    is_number (lane_latency E params l) /\
    PrimFloat.ltb (lane_latency E params l) INFINITY = true /\
    (forall j lj, candidates E params !! j = Some lj ->
       PrimFloat.ltb (lane_latency E params lj) (lane_latency E params l)
       = false) /\
    (forall j lj, (j < i)%nat -> candidates E params !! j = Some lj ->
       is_number (lane_latency E params lj) ->
       PrimFloat.ltb (lane_latency E params l) (lane_latency E params lj)
       = true) /\
    (forall w m,
       reg_md_map_call m ∈
         calls_since w (ucp_proto_priority_init_priv E params w).2
       <-> m = lane_bit E l).
Proof.
  intros Hok Hex.
  assert (Hne : candidates E params <> []).
  { intros Hnil. rewrite Hnil in Hex. by apply Exists_nil in Hex. }
  destruct (selected_index_candidate E params Hne Hok) as [l Hl].
  exists (selected_index E params (candidates E params)), l.
  split; [exact Hl|].
  destruct (argmin_scan_below (lane_latency E params <$> candidates E params))
    as (x & Hx & Hnum & Hinf & Hlow & Hup).
  { by apply Exists_fmap. }
  rewrite <- (selected_index_argmin E params Hok) in Hx, Hup.
  rewrite list_lookup_fmap, Hl in Hx. injection Hx as <-.
  split; [exact Hnum|]. split; [exact Hinf|]. split; [|split].
  - intros j lj Hlj. apply (Hlow j). by rewrite list_lookup_fmap, Hlj.
  - intros j lj Hj Hlj Hn. apply (Hup j); [exact Hj| |exact Hn].
    by rewrite list_lookup_fmap, Hlj.
  - intros w m.
    destruct (init_priv_selects E params w Hne Hok) as (l' & Hl' & Hrun).
    rewrite Hl in Hl'. injection Hl' as <-.
    rewrite Hrun. cbn [snd]. rewrite calls_since_log_all.
    apply selection_calls_reg_md_map.
Qed.

Lemma priority_init_priv_skips_nan_witness :
  exists i l,
    [0; 1; 2; 3; 4] !! i = Some l /\
    is_number (perf_nan_80_nan_45_45 l).2 /\
    PrimFloat.ltb (perf_nan_80_nan_45_45 l).2 INFINITY = true /\
    (forall j lj, [0; 1; 2; 3; 4] !! j = Some lj ->
       PrimFloat.ltb (perf_nan_80_nan_45_45 lj).2 (perf_nan_80_nan_45_45 l).2
       = false) /\
    (forall j lj, (j < i)%nat -> [0; 1; 2; 3; 4] !! j = Some lj ->
       is_number (perf_nan_80_nan_45_45 lj).2 ->
       PrimFloat.ltb (perf_nan_80_nan_45_45 l).2 (perf_nan_80_nan_45_45 lj).2
       = true) /\
    (forall w m,
       reg_md_map_call m ∈
         calls_since w
           (ucp_proto_priority_init_priv
              (sample_config [0; 1; 2; 3; 4] perf_nan_80_nan_45_45 UCS_OK
                 true)
              (sample_params 1) w).2
       <-> m = lane_bit
                 (sample_config [0; 1; 2; 3; 4] perf_nan_80_nan_45_45 UCS_OK
                    true) l).
Proof.
  apply (priority_init_priv_skips_nan
           (sample_config [0; 1; 2; 3; 4] perf_nan_80_nan_45_45 UCS_OK true)
           (sample_params 1)).
  - repeat constructor.
  - apply Exists_cons_tl, Exists_cons_hd. vm_compute. reflexivity.
Defined.

(** Lane 3, the first of the two lanes with latency 45, is selected. *)
Example priority_init_priv_nan_80_nan_45_45 :
  calls (ucp_proto_priority_init_priv
           (sample_config [0; 1; 2; 3; 4] perf_nan_80_nan_45_45 UCS_OK true)
           (sample_params 1) fresh_world).2 !! 6%nat =
  Some (reg_md_map_call (UCS_BIT 3)).
Proof. vm_compute. reflexivity. Qed.

(** ** More on [ucp_proto_priority_init] *)

Lemma init_priv_ok_iff (E : collaborators)
    (params : ucp_proto_priority_init_params_t) (w : world) :
  (ucp_proto_priority_init_priv E params w).1 = UCS_OK <->
  candidates E params <> [] /\
  Forall (fun l => lane_status E params l = UCS_OK) (candidates E params) /\
  exists l,
    candidates E params !! selected_index E params (candidates E params)
      = Some l /\
    caps_status E params l = UCS_OK.
Proof.
  split.
  - intros Hok.
    destruct (decide (candidates E params = [])) as [Hnil|Hne].
    { rewrite (init_priv_no_candidate E params w Hnil) in Hok.
      discriminate. }
    destruct (decide (Forall (fun l => lane_status E params l = UCS_OK)
                        (candidates E params))) as [Hall|Hbad].
    + split; [exact Hne|]. split; [exact Hall|].
      destruct (init_priv_selects E params w Hne Hall) as (l & Hl & Hrun).
      rewrite Hrun in Hok. by exists l.
    + destruct (init_priv_query_failed E params w Hne Hbad)
        as (s & Hs & Hrun).
      rewrite Hrun in Hok. simpl in Hok. by subst s.
  - intros (Hne & Hall & l & Hl & Hcaps).
    destruct (init_priv_selects E params w Hne Hall) as (l' & Hl' & Hrun).
    rewrite Hl in Hl'. injection Hl' as <-.
    by rewrite Hrun.
Qed.

(** X7.  [ucp_proto_priority_init] returns [UCS_OK] exactly when the
    error-handling check passes and either no priority lane is requested, or
    there is a candidate, every query succeeds and the aggregator returns
    [UCS_OK] for the candidate at the selected index. *)
Theorem priority_init_ok_iff
    (E : collaborators) (params : ucp_proto_priority_init_params_t)
    (w : world) :
  (ucp_proto_priority_init E params w).1 = UCS_OK <->
  ucp_proto_common_init_check_err_handling E (super params) = true /\
  (num_priority_lanes (common_super (super params)) = 0 \/
   (candidates E params <> [] /\
    Forall (fun l => lane_status E params l = UCS_OK) (candidates E params)
    /\
    exists l,
      candidates E params !! selected_index E params (candidates E params)
        = Some l /\
      caps_status E params l = UCS_OK)).
Proof.
  destruct (ucp_proto_common_init_check_err_handling E (super params))
    eqn:Hcheck.
  - destruct (decide (num_priority_lanes (common_super (super params)) = 0))
      as [Hzero|Hlanes].
    + unfold ucp_proto_priority_init. rewrite Hcheck, Hzero. simpl.
      split; [intros _; split; [reflexivity | by left] | reflexivity].
    + rewrite (priority_init_selection E params w Hcheck Hlanes).
      cbn [fst]. rewrite init_priv_ok_iff.
      split.
      * intros H. split; [reflexivity | by right].
      * intros [_ [Hzero|H]]; [done | exact H].
  - unfold ucp_proto_priority_init. rewrite Hcheck. simpl.
    split; [discriminate | by intros [? _]].
Qed.

(** X8.  With the error-handling check passing, priority lanes requested
    and no candidate lane, [ucp_proto_priority_init] returns
    [UCS_ERR_NO_ELEM]; the check and the lane lookup are the only calls, and
    neither [priv] nor the size cell is written. *)
Theorem priority_init_no_lanes
    (E : collaborators) (params : ucp_proto_priority_init_params_t)
    (w : world) :
  ucp_proto_common_init_check_err_handling E (super params) = true ->
  num_priority_lanes (common_super (super params)) <> 0 ->
  candidates E params = [] ->
  (ucp_proto_priority_init E params w).1 = UCS_ERR_NO_ELEM /\
  calls_since w (ucp_proto_priority_init E params w).2 =
    [init_check_err_handling_call; the_find_lanes_call E params] /\
  priv (ucp_proto_priority_init E params w).2 = priv w /\
  priv_size (ucp_proto_priority_init E params w).2 = priv_size w.
Proof.
  intros Hcheck Hlanes Hnil.
  rewrite (priority_init_selection E params w Hcheck Hlanes).
  rewrite (init_priv_no_candidate E params _ Hnil). cbn [fst snd].
  rewrite decide_False by discriminate.
  rewrite log_all_log, calls_since_log_all. repeat split.
Qed.

Lemma priority_init_no_lanes_witness :
  (ucp_proto_priority_init
     (sample_config [] perf_120_45_80 UCS_OK true) (sample_params 1)
     fresh_world).1 = UCS_ERR_NO_ELEM /\
  calls_since fresh_world
    (ucp_proto_priority_init
       (sample_config [] perf_120_45_80 UCS_OK true) (sample_params 1)
       fresh_world).2 =
    [init_check_err_handling_call; find_lanes_call 0 0 16 0] /\
  priv (ucp_proto_priority_init
          (sample_config [] perf_120_45_80 UCS_OK true) (sample_params 1)
          fresh_world).2 = None /\
  priv_size (ucp_proto_priority_init
               (sample_config [] perf_120_45_80 UCS_OK true) (sample_params 1)
               fresh_world).2 = None.
Proof.
  apply (priority_init_no_lanes
           (sample_config [] perf_120_45_80 UCS_OK true) (sample_params 1)
           fresh_world).
  - reflexivity.
  - simpl. lia.
  - reflexivity.
Defined.

(** ** The copy routine of the performance tests *)

(** X11.  [ucx_get_perf_memcpy] decides by the send memory type unless that
    is host memory, and by the receive memory type when it is; with host
    memory on one side the order of the two types does not matter. *)
Theorem perf_memcpy_deciding_type (build : perf_build)
    (send_mem_type recv_mem_type : ucs_memory_type_t) :
  ucx_get_perf_memcpy build send_mem_type recv_mem_type =
    ucx_get_perf_memcpy build
      (if decide (send_mem_type = UCS_MEMORY_TYPE_HOST) then recv_mem_type
       else send_mem_type)
      (if decide (send_mem_type = UCS_MEMORY_TYPE_HOST) then recv_mem_type
       else send_mem_type) /\
  ucx_get_perf_memcpy build UCS_MEMORY_TYPE_HOST recv_mem_type =
    ucx_get_perf_memcpy build recv_mem_type UCS_MEMORY_TYPE_HOST.
Proof.
  unfold ucx_get_perf_memcpy, perf_memcpy_mem_type. split.
  - destruct (decide (send_mem_type = UCS_MEMORY_TYPE_HOST)) as [->|Hs].
    + rewrite (decide_True (P := recv_mem_type = recv_mem_type)) by done.
      destruct (decide (UCS_MEMORY_TYPE_HOST = recv_mem_type)) as [<-|Hr];
        [done|].
      by rewrite decide_False by (intros H; by apply H).
    + rewrite (decide_True (P := send_mem_type = send_mem_type)) by done.
      destruct (decide (send_mem_type = recv_mem_type)); [done|].
      by rewrite decide_True.
  - destruct (decide (UCS_MEMORY_TYPE_HOST = recv_mem_type)) as [<-|Hr];
      [done|].
    rewrite decide_False by (intros H; by apply H).
    rewrite (decide_False (P := recv_mem_type = UCS_MEMORY_TYPE_HOST))
      by (intros H; by apply Hr).
    by rewrite decide_True by (intros H; by apply Hr).
Qed.

(** X12.  [ucx_get_perf_memcpy] returns [NULL] exactly when the deciding
    memory type is a CUDA type in a build without CUDA, a ROCm type in a
    build without ROCm, or a type it does not name; it then logs an error
    and initialises no device.  For host and RDMA memory it returns [memcpy]
    and does nothing else. *)
Theorem perf_memcpy_null_iff (build : perf_build)
    (send_mem_type recv_mem_type : ucs_memory_type_t) :
  ((ucx_get_perf_memcpy build send_mem_type recv_mem_type).1
     = memcpy_func_NULL <->
   match perf_memcpy_mem_type send_mem_type recv_mem_type with
   | UCS_MEMORY_TYPE_HOST | UCS_MEMORY_TYPE_RDMA => False
   | UCS_MEMORY_TYPE_CUDA | UCS_MEMORY_TYPE_CUDA_MANAGED =>
       HAVE_CUDA build = false
   | UCS_MEMORY_TYPE_ROCM | UCS_MEMORY_TYPE_ROCM_MANAGED =>
       HAVE_ROCM build = false
   | UCS_MEMORY_TYPE_OTHER _ => True
   end) /\
  ((ucx_get_perf_memcpy build send_mem_type recv_mem_type).1
     = memcpy_func_NULL <->
   (ucx_get_perf_memcpy build send_mem_type recv_mem_type).2 =
     [ucs_error_call (perf_memcpy_mem_type send_mem_type recv_mem_type)]) /\
  ((ucx_get_perf_memcpy build send_mem_type recv_mem_type).1 = memcpy <->
   (ucx_get_perf_memcpy build send_mem_type recv_mem_type).2 = []) /\
  ((ucx_get_perf_memcpy build send_mem_type recv_mem_type).1 = memcpy <->
   perf_memcpy_mem_type send_mem_type recv_mem_type = UCS_MEMORY_TYPE_HOST \/
   perf_memcpy_mem_type send_mem_type recv_mem_type = UCS_MEMORY_TYPE_RDMA).
Proof.
  unfold ucx_get_perf_memcpy.
  destruct (perf_memcpy_mem_type send_mem_type recv_mem_type);
    destruct (HAVE_CUDA build), (HAVE_ROCM build); simpl;
    repeat split; intros; try discriminate; try reflexivity;
    try tauto; try (destruct H; discriminate).
Qed.

(** ** CPU model detection *)

Lemma bit_field_bound (reg pos width : Z) :
  0 <= width -> 0 <= bit_field reg pos width < 2 ^ width.
Proof.
  intros Hw. unfold bit_field. rewrite Z.land_ones by exact Hw.
  apply Z.mod_pos_bound. by apply Z.pow_pos_nonneg.
Qed.

Lemma cpu_model_of_not_last (vendor : ucs_cpu_vendor_t) (family model : Z) :
  cpu_model_of vendor family model <> UCS_CPU_MODEL_LAST.
Proof.
  unfold cpu_model_of.
  repeat match goal with
         | |- context [if ?b then _ else _] => destruct b
         end; discriminate.
Qed.

(** X13.  A CPU whose adjusted family is 0x1a is reported as AMD Turin by
    every vendor other than Zhaoxin, whatever its model and extended model
    bits are: for that family the extended model is not merged into the
    model, which therefore stays below 0x10. *)
Theorem cpu_model_family_1a (version_reg : Z) (vendor : ucs_cpu_vendor_t) :
  vendor <> UCS_CPU_VENDOR_ZHAOXIN ->
  adjusted_family version_reg = 0x1a ->
  adjusted_model version_reg = version_model version_reg /\
  adjusted_model version_reg < 0x10 /\
  (ucs_arch_get_cpu_model version_reg vendor UCS_CPU_MODEL_LAST).1 =
    UCS_CPU_MODEL_AMD_TURIN.
Proof.
  intros Hv Hf.
  assert (Hm : adjusted_model version_reg = version_model version_reg).
  { unfold adjusted_model. rewrite Hf. reflexivity. }
  pose proof (bit_field_bound version_reg 4 4 ltac:(lia)) as Hb.
  fold (version_model version_reg) in Hb.
  split; [exact Hm|]. split; [rewrite Hm; simpl in Hb; lia|].
  unfold ucs_arch_get_cpu_model. simpl. unfold cpu_model_of.
  rewrite decide_False by exact Hv.
  rewrite Hf, Hm. simpl.
  replace (version_model version_reg <=? 47) with true; [reflexivity|].
  symmetry. apply Z.leb_le. simpl in Hb. lia.
Qed.

(** Family 0xf with extended family 0xb, extended model 7, model 5. *)
Lemma cpu_model_family_1a_witness :
  adjusted_model 0x00B70F50 = version_model 0x00B70F50 /\
  adjusted_model 0x00B70F50 < 0x10 /\
  (ucs_arch_get_cpu_model 0x00B70F50 UCS_CPU_VENDOR_AMD
     UCS_CPU_MODEL_LAST).1 = UCS_CPU_MODEL_AMD_TURIN.
Proof.
  apply (cpu_model_family_1a 0x00B70F50 UCS_CPU_VENDOR_AMD).
  - discriminate.
  - reflexivity.
Defined.

(** X14.  [ucs_arch_get_cpu_model] never returns [UCS_CPU_MODEL_LAST] when
    it computes the model.  For the Zhaoxin vendor the answer is a Zhaoxin
    model or unknown; for every other vendor it is never a Zhaoxin model and
    does not depend on the vendor. *)
Theorem cpu_model_by_vendor (version_reg : Z)
    (vendor vendor' : ucs_cpu_vendor_t) :
  (ucs_arch_get_cpu_model version_reg vendor UCS_CPU_MODEL_LAST).1
    <> UCS_CPU_MODEL_LAST /\
  (vendor = UCS_CPU_VENDOR_ZHAOXIN ->
   (ucs_arch_get_cpu_model version_reg vendor UCS_CPU_MODEL_LAST).1 ∈
     [UCS_CPU_MODEL_UNKNOWN; UCS_CPU_MODEL_ZHAOXIN_ZHANGJIANG;
      UCS_CPU_MODEL_ZHAOXIN_WUDAOKOU; UCS_CPU_MODEL_ZHAOXIN_LUJIAZUI]) /\
  (vendor <> UCS_CPU_VENDOR_ZHAOXIN ->
   (ucs_arch_get_cpu_model version_reg vendor UCS_CPU_MODEL_LAST).1 ∉
     [UCS_CPU_MODEL_ZHAOXIN_ZHANGJIANG; UCS_CPU_MODEL_ZHAOXIN_WUDAOKOU;
      UCS_CPU_MODEL_ZHAOXIN_LUJIAZUI]) /\
  (vendor <> UCS_CPU_VENDOR_ZHAOXIN -> vendor' <> UCS_CPU_VENDOR_ZHAOXIN ->
   (ucs_arch_get_cpu_model version_reg vendor UCS_CPU_MODEL_LAST).1 =
   (ucs_arch_get_cpu_model version_reg vendor' UCS_CPU_MODEL_LAST).1).
Proof.
  unfold ucs_arch_get_cpu_model. simpl.
  split; [apply cpu_model_of_not_last|]. split; [|split].
  - intros ->. unfold cpu_model_of. rewrite decide_True by done.
    repeat match goal with
           | |- context [if ?b then _ else _] => destruct b
           end; repeat constructor.
  - intros Hv. unfold cpu_model_of. rewrite decide_False by exact Hv.
    repeat match goal with
           | |- context [if ?b then _ else _] => destruct b
           end;
      (intros H; repeat (apply elem_of_cons in H as [H|H]; [discriminate|]);
       by apply elem_of_nil in H).
  - intros Hv Hv'. unfold cpu_model_of.
    by rewrite !decide_False by assumption.
Qed.

(** X15.  Once [ucs_arch_get_cpu_model] has been called, every later call
    returns the same model and leaves the cached value alone, whatever
    [cpuid] and the vendor detection answer by then. *)
Theorem cpu_model_cached (reg1 reg2 : Z) (vendor1 vendor2 : ucs_cpu_vendor_t)
    (cached : ucs_cpu_model_t) :
  ucs_arch_get_cpu_model reg2 vendor2
    (ucs_arch_get_cpu_model reg1 vendor1 cached).2 =
  ucs_arch_get_cpu_model reg1 vendor1 cached.
Proof.
  unfold ucs_arch_get_cpu_model.
  destruct (decide (cached <> UCS_CPU_MODEL_LAST)) as [Hc|Hc]; simpl.
  - by rewrite decide_True.
  - rewrite decide_True; [reflexivity|]. apply cpu_model_of_not_last.
Qed.

(** Two real processor signatures: an Ivy Bridge (family 6, model 0x3e) and
    a Milan (family 0xf + 0xa, model 0x01). *)
Example cpu_model_signatures :
  (ucs_arch_get_cpu_model 0x000306E4 UCS_CPU_VENDOR_INTEL
     UCS_CPU_MODEL_LAST).1 = UCS_CPU_MODEL_INTEL_IVYBRIDGE /\
  (ucs_arch_get_cpu_model 0x00A00F11 UCS_CPU_VENDOR_AMD
     UCS_CPU_MODEL_LAST).1 = UCS_CPU_MODEL_AMD_MILAN.
Proof. vm_compute. split; reflexivity. Qed.

(** ** Byte copies *)

Lemma load_length (k : nat) (mem : memory) (a : Z) :
  length (load k mem a) = k.
Proof. unfold load. by rewrite length_fmap, length_seq. Qed.

Lemma load_lookup (k : nat) (mem : memory) (a : Z) (i : nat) :
  (i < k)%nat -> load k mem a !! i = Some (mem (a + Z.of_nat i)).
Proof.
  intros Hi. unfold load. rewrite list_lookup_fmap.
  rewrite lookup_seq_lt by exact Hi. reflexivity.
Qed.

(** A store of freshly loaded bytes, read back. *)
Lemma store_load (mem mem0 : memory) (a b : Z) (k : nat) (x : Z) :
  store mem a (load k mem0 b) x =
  if decide (a <= x < a + Z.of_nat k) then mem0 (b + (x - a)) else mem x.
Proof.
  unfold store. rewrite load_length.
  destruct (decide (a <= x < a + Z.of_nat k)) as [Hx|Hx]; [|reflexivity].
  rewrite load_lookup by lia. simpl. f_equal. lia.
Qed.

Lemma clz_value (n k : Z) :
  0 <= k -> 2 ^ k <= n < 2 ^ (k + 1) ->
  ucs_count_leading_zero_bits n = 31 - k.
Proof.
  intros Hk Hn. unfold ucs_count_leading_zero_bits.
  assert (0 < 2 ^ k) by (by apply Z.pow_pos_nonneg).
  rewrite (proj2 (Z.eqb_neq n 0)) by lia.
  by rewrite (Z.log2_unique n k Hk Hn).
Qed.

Ltac copy_cases :=
  intros x; unfold copied; rewrite ?store_load;
  repeat case_decide; try lia; try reflexivity; f_equal; lia.

Lemma ucs_x86_copy_bytes_le_128_copied (dst src len : Z) (mem : memory) :
  0 <= len <= 128 ->
  disjoint_buffers dst src len ->
  forall x,
    ucs_x86_copy_bytes_le_128 dst src len mem x = copied dst src len mem x.
Proof.
  intros Hlen Hdis. unfold disjoint_buffers in Hdis.
  unfold ucs_x86_copy_bytes_le_128.
  assert (Hcase : len = 0 \/ len = 1 \/ 2 <= len < 4 \/ 4 <= len < 8 \/
                  8 <= len < 16 \/ 16 <= len < 32 \/ 32 <= len < 64 \/
                  64 <= len < 128 \/ len = 128) by lia.
  destruct Hcase as [-> | [-> | [H|[H|[H|[H|[H|[H| ->]]]]]]]].
  - change (ucs_count_leading_zero_bits 0) with 32. cbv iota. copy_cases.
  - change (ucs_count_leading_zero_bits 1) with 31. cbv iota. copy_cases.
  - rewrite (clz_value len 1) by (simpl; lia). simpl. copy_cases.
  - rewrite (clz_value len 2) by (simpl; lia). simpl. copy_cases.
  - rewrite (clz_value len 3) by (simpl; lia). simpl. copy_cases.
  - rewrite (clz_value len 4) by (simpl; lia). simpl. copy_cases.
  - rewrite (clz_value len 5) by (simpl; lia). simpl. copy_cases.
  - rewrite (clz_value len 6) by (simpl; lia). simpl. copy_cases.
  - change (ucs_count_leading_zero_bits 128) with 24. cbv iota. copy_cases.
Qed.

(** X16.  For a length of at most 128 and buffers that do not overlap,
    [ucs_x86_copy_bytes_le_128] leaves in every byte of the destination
    buffer the byte the source buffer held at the same offset, and changes
    no byte outside the destination buffer. *)
Theorem copy_bytes_le_128_correct (dst src len : Z) (mem : memory) :
  0 <= len <= 128 ->
  disjoint_buffers dst src len ->
  forall x,
    ucs_x86_copy_bytes_le_128 dst src len mem x = copied dst src len mem x.
Proof. apply ucs_x86_copy_bytes_le_128_copied. Qed.

(** The byte in the middle of a copy of 21 bytes. *)
Lemma copy_bytes_le_128_correct_witness :
  ucs_x86_copy_bytes_le_128 1000 3 21 sample_memory 1010 =
  copied 1000 3 21 sample_memory 1010.
Proof.
  apply (copy_bytes_le_128_correct 1000 3 21 sample_memory).
  - lia.
  - unfold disjoint_buffers. lia.
Defined.

(** The last byte of a copy of 21 bytes, and the byte after it. *)
Example copy_bytes_le_128_21 :
  ucs_x86_copy_bytes_le_128 1000 3 21 sample_memory 1020
    = sample_memory 23 /\
  ucs_x86_copy_bytes_le_128 1000 3 21 sample_memory 1021
    = sample_memory 1021.
Proof. vm_compute. split; reflexivity. Qed.

(** Beyond 128 bytes the routine by itself does not copy everything: of
    200 bytes, byte 100 is left as it was. *)
Example copy_bytes_le_128_200 :
  ucs_x86_copy_bytes_le_128 1000 0 200 sample_memory 1100
    = sample_memory 1100.
Proof. vm_compute. reflexivity. Qed.

(** ** The non-temporal transfers *)

#[global] Arguments load : simpl never.
#[global] Arguments store : simpl never.

Lemma fault_aligned_access (al a : Z) (st : machine) :
  m_fault (aligned_access al a st) = m_fault st || negb (a mod al =? 0).
Proof. reflexivity. Qed.

Lemma fault_write (a : Z) (v : list Byte.byte) (st : machine) :
  m_fault (write a v st) = m_fault st.
Proof. reflexivity. Qed.

Lemma fault_stream (p : Z) (v : list Byte.byte) (st : machine) :
  m_fault (mm256_stream_si256 p v st) = m_fault st || negb (p mod 32 =? 0).
Proof. reflexivity. Qed.

Lemma fault_store (p : Z) (v : list Byte.byte) (st : machine) :
  m_fault (mm256_store_si256 p v st) = m_fault st || negb (p mod 32 =? 0).
Proof. reflexivity. Qed.

Lemma fault_storeu (p : Z) (v : list Byte.byte) (st : machine) :
  m_fault (mm256_storeu_si256 p v st) = m_fault st.
Proof. reflexivity. Qed.

Ltac fault_steps :=
  cbv beta iota zeta;
  rewrite ?fault_stream, ?fault_store, ?fault_storeu, ?fault_aligned_access,
    ?fault_write.

Ltac solve_aligned :=
  apply Z.eqb_eq; Z.div_mod_to_equations; lia.

Ltac clear_faults :=
  repeat match goal with
         | |- context [?a mod 32 =? 0] =>
             replace (a mod 32 =? 0) with true
               by (symmetry; solve_aligned)
         end.

Lemma land_1f (a : Z) : Z.land a 0x1f = a mod 32.
Proof. change 0x1f with (Z.ones 5). by rewrite Z.land_ones. Qed.

Lemma size_sub_small (a b : Z) :
  0 <= b <= a -> a < 2 ^ 64 -> size_sub a b = a - b.
Proof. intros Hb Ha. unfold size_sub. apply Z.mod_small. lia. Qed.

Section TransferFacts.

Variables dst src total : Z.
Variable mem0 : memory.
Hypothesis Hdis : disjoint_buffers dst src total.

Local Abbreviation inv := (transfer_inv dst src total mem0).

(** The memory after each loop body, and after the unconditional copies. *)

Lemma stream_256_mem (aligned : bool) (offset : Z) (st : machine) :
  m_mem (stream_256 aligned dst src offset st) =
  store (store (store (store (store (store (store (store (m_mem st)
    (dst + offset) (load 32 (m_mem st) (src + offset)))
    (dst + (offset + 32)) (load 32 (m_mem st) (src + (offset + 32))))
    (dst + (offset + 64)) (load 32 (m_mem st) (src + (offset + 64))))
    (dst + (offset + 96)) (load 32 (m_mem st) (src + (offset + 96))))
    (dst + (offset + 128)) (load 32 (m_mem st) (src + (offset + 128))))
    (dst + (offset + 160)) (load 32 (m_mem st) (src + (offset + 160))))
    (dst + (offset + 192)) (load 32 (m_mem st) (src + (offset + 192))))
    (dst + (offset + 224)) (load 32 (m_mem st) (src + (offset + 224))).
Proof. by destruct aligned. Qed.

Lemma stream_64_mem (offset : Z) (st : machine) :
  m_mem (stream_64 dst src offset st) =
  store (store (m_mem st)
    (dst + offset) (load 32 (m_mem st) (src + offset)))
    (dst + (offset + 32)) (load 32 (m_mem st) (src + (offset + 32))).
Proof. reflexivity. Qed.

Lemma store_128_mem (aligned : bool) (offset : Z) (st : machine) :
  m_mem (store_128 aligned dst src offset st) =
  store (store (store (store (m_mem st)
    (dst + offset) (load 32 (m_mem st) (src + offset)))
    (dst + (offset + 32)) (load 32 (m_mem st) (src + (offset + 32))))
    (dst + (offset + 64)) (load 32 (m_mem st) (src + (offset + 64))))
    (dst + (offset + 96)) (load 32 (m_mem st) (src + (offset + 96))).
Proof. by destruct aligned. Qed.

Lemma copy_first_64_mem (st : machine) :
  m_mem (copy_first_64 dst src st) =
  store (store (m_mem st) dst (load 32 (m_mem st) src))
    (dst + 32) (load 32 (m_mem st) (src + 32)).
Proof. reflexivity. Qed.

Lemma copy_first_64_fault (st : machine) :
  m_fault (copy_first_64 dst src st) = m_fault st.
Proof. reflexivity. Qed.

(** The loop bodies keep the invariant. *)

Ltac body_mem Hdone Hframe :=
  rewrite ?store_load; repeat case_decide; try lia;
  try (rewrite Hframe by lia; f_equal; lia);
  first [apply Hdone; lia | apply Hframe; lia].

Lemma stream_256_inv (aligned : bool) (offset len : Z) (st : machine) :
  inv offset len st -> 256 <= len < 2 ^ 64 ->
  (aligned = true -> (src + offset) mod 32 = 0) ->
  inv (offset + 256) (size_sub len 256)
    (stream_256 aligned dst src offset st).
Proof.
  intros (Ho & Hl & Hsum & Hfault & Halign & Hdone & Hframe) Hlen Hsrc.
  unfold disjoint_buffers in Hdis.
  rewrite size_sub_small by lia.
  unfold transfer_inv.
  split; [lia|]. split; [lia|]. split; [lia|]. split; [|split; [|split]].
  - destruct aligned; unfold stream_256, load32, mm256_load_si256,
      mm256_loadu_si256; fault_steps; rewrite Hfault; cbn [orb].
    + specialize (Hsrc eq_refl). clear_faults. reflexivity.
    + clear_faults. reflexivity.
  - Z.div_mod_to_equations; lia.
  - intros x Hx. rewrite stream_256_mem. body_mem Hdone Hframe.
  - intros x Hx. rewrite stream_256_mem. body_mem Hdone Hframe.
Qed.

Lemma stream_64_inv (offset len : Z) (st : machine) :
  inv offset len st -> 64 <= len < 2 ^ 64 ->
  inv (offset + 64) (size_sub len 64) (stream_64 dst src offset st).
Proof.
  intros (Ho & Hl & Hsum & Hfault & Halign & Hdone & Hframe) Hlen.
  unfold disjoint_buffers in Hdis.
  rewrite size_sub_small by lia.
  unfold transfer_inv.
  split; [lia|]. split; [lia|]. split; [lia|]. split; [|split; [|split]].
  - unfold stream_64, mm256_loadu_si256; fault_steps; rewrite Hfault;
      cbn [orb]. clear_faults. reflexivity.
  - Z.div_mod_to_equations; lia.
  - intros x Hx. rewrite stream_64_mem. body_mem Hdone Hframe.
  - intros x Hx. rewrite stream_64_mem. body_mem Hdone Hframe.
Qed.

Lemma store_128_inv (aligned : bool) (offset len : Z) (st : machine) :
  inv offset len st -> 128 <= len < 2 ^ 64 ->
  (aligned = true -> (src + offset) mod 32 = 0) ->
  inv (offset + 128) (size_sub len 128)
    (store_128 aligned dst src offset st).
Proof.
  intros (Ho & Hl & Hsum & Hfault & Halign & Hdone & Hframe) Hlen Hsrc.
  unfold disjoint_buffers in Hdis.
  rewrite size_sub_small by lia.
  unfold transfer_inv.
  split; [lia|]. split; [lia|]. split; [lia|]. split; [|split; [|split]].
  - destruct aligned; unfold store_128, load32, mm256_load_si256,
      mm256_loadu_si256; fault_steps; rewrite Hfault; cbn [orb].
    + specialize (Hsrc eq_refl). clear_faults. reflexivity.
    + clear_faults. reflexivity.
  - Z.div_mod_to_equations; lia.
  - intros x Hx. rewrite store_128_mem. body_mem Hdone Hframe.
  - intros x Hx. rewrite store_128_mem. body_mem Hdone Hframe.
Qed.

(** The loops end with the invariant and less than one block left. *)

Lemma stream_256_loop_spec (fuel : nat) (aligned : bool) (offset len : Z)
    (st : machine) :
  inv offset len st -> len < 2 ^ 64 ->
  (aligned = true -> (src + offset) mod 32 = 0) ->
  (Z.to_nat len <= fuel)%nat ->
  exists offset' len' st',
    stream_256_loop fuel aligned dst src offset len st = (offset', len', st')
    /\ inv offset' len' st' /\ len' < 256.
Proof.
  revert offset len st.
  induction fuel as [|fuel IH]; intros offset len st Hinv Hlen Hsrc Hfuel.
  - exists offset, len, st. split; [reflexivity|]. split; [exact Hinv|].
    destruct Hinv as (_ & Hl & _). lia.
  - simpl. destruct (Z.geb_spec len 256) as [Hge|Hlt].
    + pose proof Hinv as (_ & Hl & _).
      apply IH.
      * apply stream_256_inv; [exact Hinv | lia | exact Hsrc].
      * rewrite size_sub_small by lia. lia.
      * intros Ha. specialize (Hsrc Ha). Z.div_mod_to_equations; lia.
      * rewrite size_sub_small by lia. lia.
    + exists offset, len, st. split; [reflexivity|]. split; [exact Hinv | lia].
Qed.

Lemma stream_64_loop_spec (fuel : nat) (offset len : Z) (st : machine) :
  inv offset len st -> len < 2 ^ 64 ->
  (Z.to_nat len <= fuel)%nat ->
  exists offset' len' st',
    stream_64_loop fuel dst src offset len st = (offset', len', st')
    /\ inv offset' len' st' /\ len' < 64.
Proof.
  revert offset len st.
  induction fuel as [|fuel IH]; intros offset len st Hinv Hlen Hfuel.
  - exists offset, len, st. split; [reflexivity|]. split; [exact Hinv|].
    destruct Hinv as (_ & Hl & _). lia.
  - simpl. destruct (Z.geb_spec len 64) as [Hge|Hlt].
    + pose proof Hinv as (_ & Hl & _).
      apply IH.
      * apply stream_64_inv; [exact Hinv | lia].
      * rewrite size_sub_small by lia. lia.
      * rewrite size_sub_small by lia. lia.
    + exists offset, len, st. split; [reflexivity|]. split; [exact Hinv | lia].
Qed.

Lemma store_128_loop_spec (fuel : nat) (aligned : bool) (offset len : Z)
    (st : machine) :
  inv offset len st -> len < 2 ^ 64 ->
  (aligned = true -> (src + offset) mod 32 = 0) ->
  (Z.to_nat len <= fuel)%nat ->
  exists offset' len' st',
    store_128_loop fuel aligned dst src offset len st = (offset', len', st')
    /\ inv offset' len' st' /\ len' < 128.
Proof.
  revert offset len st.
  induction fuel as [|fuel IH]; intros offset len st Hinv Hlen Hsrc Hfuel.
  - exists offset, len, st. split; [reflexivity|]. split; [exact Hinv|].
    destruct Hinv as (_ & Hl & _). lia.
  - simpl. destruct (Z.geb_spec len 128) as [Hge|Hlt].
    + pose proof Hinv as (_ & Hl & _).
      apply IH.
      * apply store_128_inv; [exact Hinv | lia | exact Hsrc].
      * rewrite size_sub_small by lia. lia.
      * intros Ha. specialize (Hsrc Ha). Z.div_mod_to_equations; lia.
      * rewrite size_sub_small by lia. lia.
    + exists offset, len, st. split; [reflexivity|]. split; [exact Hinv | lia].
Qed.

End TransferFacts.

Section RoutineFacts.

Variables dst src total : Z.
Variable st0 : machine.
Hypothesis Hdis : disjoint_buffers dst src total.
Hypothesis Hfault0 : m_fault st0 = false.

Local Abbreviation mem0 := (m_mem st0).
Local Abbreviation inv := (transfer_inv dst src total mem0).

Local Abbreviation prefix_done := (transfer_prefix dst src total mem0).

Lemma prefix_done_inv (n offset : Z) (st : machine) :
  prefix_done n st -> 0 <= offset <= n -> offset <= total ->
  (dst + offset) mod 32 = 0 ->
  inv offset (total - offset) st.
Proof.
  intros (Hf & Hdone & Hframe) Ho Ht Ha. unfold transfer_inv.
  split; [lia|]. split; [lia|]. split; [lia|]. split; [exact Hf|].
  split; [exact Ha|]. split; [|exact Hframe].
  intros x Hx. apply Hdone. lia.
Qed.

Lemma inv_prefix_done (offset len : Z) (st : machine) :
  inv offset len st -> prefix_done (total - len) st.
Proof.
  intros (Ho & Hl & Hsum & Hf & _ & Hdone & Hframe).
  split; [exact Hf|]. split; [|exact Hframe].
  intros x Hx. apply Hdone. lia.
Qed.

Lemma copy_first_64_done :
  64 <= total -> prefix_done 64 (copy_first_64 dst src st0).
Proof.
  intros Ht. unfold disjoint_buffers in Hdis. split; [exact Hfault0|].
  split; intros x Hx; rewrite copy_first_64_mem, ?store_load;
    repeat case_decide; try lia; try reflexivity; f_equal; lia.
Qed.

Lemma stream_from_64_spec (st : machine) :
  prefix_done 64 st -> 64 <= total < 2 ^ 64 ->
  exists tail st',
    stream_from_64 dst src total st = (tail, st') /\
    inv (total - tail) tail st' /\ tail < 64.
Proof.
  intros Hpre Ht. unfold stream_from_64. rewrite !land_1f.
  assert (Hmod : 0 <= dst mod 32 < 32) by (apply Z.mod_pos_bound; lia).
  rewrite size_sub_small by lia.
  assert (Hinv : inv (64 - dst mod 32) (total - (64 - dst mod 32)) st).
  { apply (prefix_done_inv 64); [exact Hpre | lia | lia |].
    Z.div_mod_to_equations; lia. }
  destruct (stream_256_loop_spec dst src total mem0 Hdis
              (Z.to_nat (total - (64 - dst mod 32)))
              ((src + (64 - dst mod 32)) mod 32 =? 0)
              _ _ st Hinv ltac:(lia))
    as (o1 & l1 & st1 & -> & Hinv1 & Hl1).
  { intros Ha. by apply Z.eqb_eq in Ha. }
  { lia. }
  pose proof Hinv1 as (Ho1 & Hl1' & Hsum1 & _).
  destruct (stream_64_loop_spec dst src total mem0 Hdis (Z.to_nat l1)
              o1 l1 st1 Hinv1 ltac:(lia) ltac:(lia))
    as (o2 & l2 & st2 & -> & Hinv2 & Hl2).
  exists l2, st2. split; [reflexivity|]. split; [|exact Hl2].
  pose proof Hinv2 as (_ & _ & Hsum2 & _).
  by replace (total - l2) with o2 by lia.
Qed.

Lemma nt_all_spec :
  64 <= total < 2 ^ 64 ->
  exists tail st',
    ucs_x86_nt_all_buffer_transfer dst src total st0 = (tail, st') /\
    inv (total - tail) tail st' /\ tail < 64.
Proof.
  intros Ht. unfold ucs_x86_nt_all_buffer_transfer.
  apply stream_from_64_spec; [|exact Ht]. apply copy_first_64_done. lia.
Qed.

Lemma nt_dst_spec (total_len : Z) :
  128 <= total < 2 ^ 64 ->
  exists tail st',
    ucs_x86_nt_dst_buffer_transfer dst src total total_len st0 = (tail, st')
    /\ inv (total - tail) tail st' /\ tail < 128.
Proof.
  intros Ht. unfold ucs_x86_nt_dst_buffer_transfer. cbv zeta.
  destruct (total_len >? 2048).
  - destruct (stream_from_64_spec (copy_first_64 dst src st0))
      as (tail & st' & Heq & Hinv & Htail).
    { apply copy_first_64_done. lia. }
    { lia. }
    exists tail, st'. split; [exact Heq|]. split; [exact Hinv | lia].
  - rewrite !land_1f.
    assert (Hmod : 0 <= dst mod 32 < 32) by (apply Z.mod_pos_bound; lia).
    rewrite size_sub_small by lia.
    set (st1 := mm256_storeu_si256 (dst + 96) _ _).
    assert (Hpre : prefix_done 128 st1).
    { unfold disjoint_buffers in Hdis. split; [exact Hfault0|].
      split; intros x Hx; unfold st1, mm256_storeu_si256, mm256_loadu_si256;
        cbn [m_mem write]; rewrite copy_first_64_mem, ?store_load;
        repeat case_decide; try lia; try reflexivity; f_equal; lia. }
    assert (Hinv : inv (128 - dst mod 32) (total - (128 - dst mod 32)) st1).
    { apply (prefix_done_inv 128); [exact Hpre | lia | lia |].
      Z.div_mod_to_equations; lia. }
    destruct (store_128_loop_spec dst src total mem0 Hdis
                (Z.to_nat (total - (128 - dst mod 32))) false
                _ _ st1 Hinv ltac:(lia))
      as (o1 & l1 & st2 & -> & Hinv1 & Hl1).
    { discriminate. }
    { lia. }
    exists l1, st2. split; [reflexivity|]. split; [|exact Hl1].
    pose proof Hinv1 as (_ & _ & Hsum1 & _).
    by replace (total - l1) with o1 by lia.
Qed.

Lemma nt_src_spec :
  128 <= total < 2 ^ 64 ->
  exists tail st',
    ucs_x86_nt_src_buffer_transfer dst src total st0 = (tail, st')
    /\ inv (total - tail) tail st' /\ tail < 128.
Proof.
  intros Ht. unfold ucs_x86_nt_src_buffer_transfer. cbv zeta.
  rewrite !land_1f.
  assert (Hmod : 0 <= dst mod 32 < 32) by (apply Z.mod_pos_bound; lia).
  rewrite size_sub_small by lia.
  set (st1 := mm256_storeu_si256 (dst + 96) _ _).
  assert (Hpre : prefix_done 128 st1).
  { unfold disjoint_buffers in Hdis. split; [exact Hfault0|].
    split; intros x Hx; unfold st1, mm256_storeu_si256, mm256_loadu_si256;
      cbn [m_mem write]; rewrite ?store_load;
      repeat case_decide; try lia; try reflexivity; f_equal; lia. }
  assert (Hinv : inv (128 - dst mod 32) (total - (128 - dst mod 32)) st1).
  { apply (prefix_done_inv 128); [exact Hpre | lia | lia |].
    Z.div_mod_to_equations; lia. }
  destruct (store_128_loop_spec dst src total mem0 Hdis
              (Z.to_nat (total - (128 - dst mod 32)))
              ((src + (128 - dst mod 32)) mod 32 =? 0)
              _ _ st1 Hinv ltac:(lia))
    as (o1 & l1 & st2 & -> & Hinv1 & Hl1).
  { intros Ha. by apply Z.eqb_eq in Ha. }
  { lia. }
  exists l1, st2. split; [reflexivity|]. split; [|exact Hl1].
  pose proof Hinv1 as (_ & _ & Hsum1 & _).
  by replace (total - l1) with o1 by lia.
Qed.

(** The last step of [ucs_x86_nt_buffer_transfer]: the bytes a routine left
    are copied by [ucs_x86_copy_bytes_le_128]. *)
Lemma copy_tail_spec (tail : Z) (st : machine) :
  inv (total - tail) tail st -> tail <= 128 ->
  m_fault (copy_bytes_le_128 (dst + (total - tail)) (src + (total - tail))
             tail st) = false /\
  forall x,
    m_mem (copy_bytes_le_128 (dst + (total - tail)) (src + (total - tail))
             tail st) x = copied dst src total mem0 x.
Proof.
  intros (Ho & Hl & Hsum & Hf & _ & Hdone & Hframe) Htail.
  unfold disjoint_buffers in Hdis.
  split; [exact Hf|]. intros x. unfold copy_bytes_le_128. cbn [m_mem].
  rewrite (Z.mod_small tail) by lia.
  rewrite ucs_x86_copy_bytes_le_128_copied;
    [|lia | unfold disjoint_buffers; lia].
  unfold copied. repeat case_decide; try lia.
  - rewrite Hframe by lia. f_equal. lia.
  - apply Hdone. lia.
  - by apply Hframe.
Qed.

End RoutineFacts.

(** X17.  [ucs_x86_nt_buffer_transfer] copies: for buffers of [len] bytes
    that do not overlap, whatever the hints, the threshold and [total_len]
    are, every byte of the destination buffer ends up equal to the byte the
    source buffer held at the same offset, no byte outside the destination
    buffer changes, and no instruction that needs an aligned address is run
    on an address that is not aligned. *)
Theorem nt_buffer_transfer_correct
    (nt_dest_threshold dst src len : Z) (nt_source nt_dest : bool)
    (total_len : Z) (st : machine) :
  0 <= len < 2 ^ 64 ->
  disjoint_buffers dst src len ->
  m_fault st = false ->
  m_fault (ucs_x86_nt_buffer_transfer nt_dest_threshold dst src len
             nt_source nt_dest total_len st) = false /\
  forall x,
    m_mem (ucs_x86_nt_buffer_transfer nt_dest_threshold dst src len
             nt_source nt_dest total_len st) x =
    copied dst src len (m_mem st) x.
Proof.
  intros Hlen Hdis Hfault. unfold ucs_x86_nt_buffer_transfer.
  destruct (Z.leb_spec len 128) as [Hle|Hgt].
  - split; [exact Hfault|]. intros x. unfold copy_bytes_le_128. cbn [m_mem].
    rewrite (Z.mod_small len) by lia.
    apply ucs_x86_copy_bytes_le_128_copied; [lia | exact Hdis].
  - assert (Hall := nt_all_spec dst src len st Hdis Hfault ltac:(lia)).
    assert (Hdst := nt_dst_spec dst src len st Hdis Hfault total_len
                      ltac:(lia)).
    assert (Hsrc := nt_src_spec dst src len st Hdis Hfault ltac:(lia)).
    destruct Hall as (t1 & s1 & E1 & I1 & B1).
    destruct Hdst as (t2 & s2 & E2 & I2 & B2).
    destruct Hsrc as (t3 & s3 & E3 & I3 & B3).
    destruct (total_len >? nt_dest_threshold), nt_source, nt_dest;
      rewrite ?E1, ?E2, ?E3;
      try (apply (copy_tail_spec dst src len st Hdis); [assumption | lia]).
    all: unfold disjoint_buffers in Hdis.
    all: split; [exact Hfault|]; intros x;
      unfold copy_bytes_le_128; cbn [m_mem write];
      change (ucs_x86_copy_bytes_le_128 (dst + (len - 0)) (src + (len - 0))
                (0 mod 2 ^ 32))
        with (fun m : memory => m);
      cbv beta; rewrite store_load, Z2Nat.id by lia; reflexivity.
Qed.

(** A transfer of 1000 bytes with the source hint, above the threshold. *)
Lemma nt_buffer_transfer_correct_witness :
  m_fault (ucs_x86_nt_buffer_transfer 512 5003 17 1000 true false 1000
             {| m_mem := sample_memory; m_fault := false |}) = false /\
  forall x,
    m_mem (ucs_x86_nt_buffer_transfer 512 5003 17 1000 true false 1000
             {| m_mem := sample_memory; m_fault := false |}) x =
    copied 5003 17 1000 sample_memory x.
Proof.
  apply (nt_buffer_transfer_correct 512 5003 17 1000 true false 1000
           {| m_mem := sample_memory; m_fault := false |}).
  - lia.
  - unfold disjoint_buffers. lia.
  - reflexivity.
Defined.

Example nt_buffer_transfer_1000 :
  m_mem (ucs_x86_nt_buffer_transfer 512 5003 17 1000 true false 1000
           {| m_mem := sample_memory; m_fault := false |}) 6002
    = sample_memory 1016 /\
  m_mem (ucs_x86_nt_buffer_transfer 512 5003 17 1000 true false 1000
           {| m_mem := sample_memory; m_fault := false |}) 6003
    = sample_memory 6003.
Proof. vm_compute. split; reflexivity. Qed.

Lemma transfer_inv_explicit (dst src total : Z) (mem0 : memory)
    (tail : Z) (st : machine) :
  transfer_inv dst src total mem0 (total - tail) tail st ->
  0 <= tail /\
  m_fault st = false /\
  (dst + (total - tail)) mod 32 = 0 /\
  (forall x, dst <= x < dst + (total - tail) ->
     m_mem st x = mem0 (src + (x - dst))) /\
  (forall x, ~ (dst <= x < dst + total) -> m_mem st x = mem0 x).
Proof. intros (_ & Hl & _ & Hf & Ha & Hdone & Hframe). by repeat split. Qed.

(** X18.  [ucs_x86_nt_all_buffer_transfer], on buffers of at least 64 bytes
    that do not overlap, returns a remaining length below 64.  By then the
    bytes before the remaining ones are copied, the next destination address
    is 32-byte aligned, no byte outside the destination buffer has changed
    and every streaming store and aligned load was run on an aligned
    address. *)
Theorem nt_all_buffer_transfer_spec (dst src len : Z) (st : machine) :
  64 <= len < 2 ^ 64 ->
  disjoint_buffers dst src len ->
  m_fault st = false ->
  exists tail st',
    ucs_x86_nt_all_buffer_transfer dst src len st = (tail, st') /\
    tail < 64 /\ 0 <= tail /\
    m_fault st' = false /\
    (dst + (len - tail)) mod 32 = 0 /\
    (forall x, dst <= x < dst + (len - tail) ->
       m_mem st' x = m_mem st (src + (x - dst))) /\
    (forall x, ~ (dst <= x < dst + len) -> m_mem st' x = m_mem st x).
Proof.
  intros Hlen Hdis Hfault.
  destruct (nt_all_spec dst src len st Hdis Hfault Hlen)
    as (tail & st' & Heq & Hinv & Htail).
  exists tail, st'. split; [exact Heq|]. split; [exact Htail|].
  by apply transfer_inv_explicit.
Qed.

Lemma nt_all_buffer_transfer_spec_witness :
  exists tail st',
    ucs_x86_nt_all_buffer_transfer 5003 17 1000
      {| m_mem := sample_memory; m_fault := false |} = (tail, st') /\
    tail < 64 /\ 0 <= tail /\
    m_fault st' = false /\
    (5003 + (1000 - tail)) mod 32 = 0 /\
    (forall x, 5003 <= x < 5003 + (1000 - tail) ->
       m_mem st' x = sample_memory (17 + (x - 5003))) /\
    (forall x, ~ (5003 <= x < 5003 + 1000) ->
       m_mem st' x = sample_memory x).
Proof.
  apply (nt_all_buffer_transfer_spec 5003 17 1000
           {| m_mem := sample_memory; m_fault := false |}).
  - lia.
  - unfold disjoint_buffers. lia.
  - reflexivity.
Defined.

(** With fewer than 64 bytes the length left after the unconditional copy
    wraps around: for 10 bytes at address 5000 the loops would be entered
    with a length of 2^64 - 46. *)
Example nt_all_buffer_transfer_short :
  size_sub 10 (64 - Z.land 5000 0x1f) = 2 ^ 64 - 46.
Proof. reflexivity. Qed.

(** X19.  [ucs_x86_nt_dst_buffer_transfer], on buffers of at least 128
    bytes that do not overlap and for every [total_len], returns a remaining
    length below 128.  By then the bytes before the remaining ones are
    copied, the next destination address is 32-byte aligned, no byte outside
    the destination buffer has changed and every streaming or aligned store
    was run on an aligned address. *)
Theorem nt_dst_buffer_transfer_spec (dst src len total_len : Z)
    (st : machine) :
  128 <= len < 2 ^ 64 ->
  disjoint_buffers dst src len ->
  m_fault st = false ->
  exists tail st',
    ucs_x86_nt_dst_buffer_transfer dst src len total_len st = (tail, st') /\
    tail < 128 /\ 0 <= tail /\
    m_fault st' = false /\
    (dst + (len - tail)) mod 32 = 0 /\
    (forall x, dst <= x < dst + (len - tail) ->
       m_mem st' x = m_mem st (src + (x - dst))) /\
    (forall x, ~ (dst <= x < dst + len) -> m_mem st' x = m_mem st x).
Proof.
  intros Hlen Hdis Hfault.
  destruct (nt_dst_spec dst src len st Hdis Hfault total_len Hlen)
    as (tail & st' & Heq & Hinv & Htail).
  exists tail, st'. split; [exact Heq|]. split; [exact Htail|].
  by apply transfer_inv_explicit.
Qed.

Lemma nt_dst_buffer_transfer_spec_witness :
  exists tail st',
    ucs_x86_nt_dst_buffer_transfer 5003 17 1000 1000
      {| m_mem := sample_memory; m_fault := false |} = (tail, st') /\
    tail < 128 /\ 0 <= tail /\
    m_fault st' = false /\
    (5003 + (1000 - tail)) mod 32 = 0 /\
    (forall x, 5003 <= x < 5003 + (1000 - tail) ->
       m_mem st' x = sample_memory (17 + (x - 5003))) /\
    (forall x, ~ (5003 <= x < 5003 + 1000) ->
       m_mem st' x = sample_memory x).
Proof.
  apply (nt_dst_buffer_transfer_spec 5003 17 1000 1000
           {| m_mem := sample_memory; m_fault := false |}).
  - lia.
  - unfold disjoint_buffers. lia.
  - reflexivity.
Defined.

(** X20.  [ucs_x86_nt_src_buffer_transfer], on buffers of at least 128
    bytes that do not overlap, returns a remaining length below 128.  By
    then the bytes before the remaining ones are copied, the next
    destination address is 32-byte aligned, no byte outside the destination
    buffer has changed and every aligned load and store was run on an
    aligned address. *)
Theorem nt_src_buffer_transfer_spec (dst src len : Z) (st : machine) :
  128 <= len < 2 ^ 64 ->
  disjoint_buffers dst src len ->
  m_fault st = false ->
  exists tail st',
    ucs_x86_nt_src_buffer_transfer dst src len st = (tail, st') /\
    tail < 128 /\ 0 <= tail /\
    m_fault st' = false /\
    (dst + (len - tail)) mod 32 = 0 /\
    (forall x, dst <= x < dst + (len - tail) ->
       m_mem st' x = m_mem st (src + (x - dst))) /\
    (forall x, ~ (dst <= x < dst + len) -> m_mem st' x = m_mem st x).
Proof.
  intros Hlen Hdis Hfault.
  destruct (nt_src_spec dst src len st Hdis Hfault Hlen)
    as (tail & st' & Heq & Hinv & Htail).
  exists tail, st'. split; [exact Heq|]. split; [exact Htail|].
  by apply transfer_inv_explicit.
Qed.

Lemma nt_src_buffer_transfer_spec_witness :
  exists tail st',
    ucs_x86_nt_src_buffer_transfer 5003 32 1000
      {| m_mem := sample_memory; m_fault := false |} = (tail, st') /\
    tail < 128 /\ 0 <= tail /\
    m_fault st' = false /\
    (5003 + (1000 - tail)) mod 32 = 0 /\
    (forall x, 5003 <= x < 5003 + (1000 - tail) ->
       m_mem st' x = sample_memory (32 + (x - 5003))) /\
    (forall x, ~ (5003 <= x < 5003 + 1000) ->
       m_mem st' x = sample_memory x).
Proof.
  apply (nt_src_buffer_transfer_spec 5003 32 1000
           {| m_mem := sample_memory; m_fault := false |}).
  - lia.
  - unfold disjoint_buffers. lia.
  - reflexivity.
Defined.

(** ** The SSE copy *)

Lemma take_drop_load (n m k : nat) (mem : memory) (b : Z) :
  take n (drop m (load k mem b)) =
  load (Nat.min n (k - m)) mem (b + Z.of_nat m).
Proof.
  apply list_eq. intros i.
  destruct (decide (i < Nat.min n (k - m))%nat) as [Hi|Hi].
  - rewrite lookup_take_lt by lia. rewrite lookup_drop.
    rewrite !load_lookup by lia. f_equal. f_equal. lia.
  - rewrite (lookup_ge_None_2 (load _ _ _)) by (rewrite load_length; lia).
    apply lookup_ge_None_2. rewrite length_take, length_drop, load_length.
    lia.
Qed.

Lemma fault_mm_store (p : Z) (v : list Byte.byte) (st : machine) :
  m_fault (mm_store p v st) = m_fault st.
Proof. reflexivity. Qed.

Lemma land_15 (a : Z) : Z.land a 15 = a mod 16.
Proof. change 15 with (Z.ones 4). by rewrite Z.land_ones. Qed.

Lemma land_lnot_15 (a : Z) : Z.land a (Z.lnot 15) = a - a mod 16.
Proof.
  rewrite <- Z.ldiff_land. change 15 with (Z.ones 4).
  rewrite Z.ldiff_ones_r by lia.
  rewrite Z.shiftr_div_pow2, Z.shiftl_mul_pow2 by lia.
  change (2 ^ 4) with 16. Z.div_mod_to_equations; lia.
Qed.

Ltac solve_aligned_16 :=
  apply Z.eqb_eq; Z.div_mod_to_equations; lia.

Ltac clear_faults_16 :=
  repeat match goal with
         | |- context [?a mod 16 =? 0] =>
             replace (a mod 16 =? 0) with true
               by (symmetry; solve_aligned_16)
         end.

Section SseFacts.

Variables dst src total : Z.
Variable st0 : machine.
Hypothesis Hdis : disjoint_buffers dst src total.
Hypothesis Hfault0 : m_fault st0 = false.
Hypothesis Htotal : 0 <= total < 2 ^ 64.

Local Abbreviation mem0 := (m_mem st0).
Local Abbreviation inv := (sse_inv dst src total mem0).

Lemma sse_copy_64_mem (d s : Z) (st : machine) :
  m_mem (sse_copy_64 d s st) =
  store (store (store (store (m_mem st)
    d (load 16 (m_mem st) s))
    (d + 16) (load 16 (m_mem st) (s + 16)))
    (d + 32) (load 16 (m_mem st) (s + 32)))
    (d + 48) (load 16 (m_mem st) (s + 48)).
Proof. reflexivity. Qed.

Lemma sse_copy_16_mem (d s : Z) (st : machine) :
  m_mem (sse_copy_16 d s st) = store (m_mem st) d (load 16 (m_mem st) s).
Proof. reflexivity. Qed.

Ltac sse_mem Hdone Hframe :=
  rewrite ?store_load; repeat case_decide; try lia;
  try (rewrite Hframe by lia; f_equal; lia);
  first [apply Hdone; lia | apply Hframe; lia].

Lemma sse_copy_64_inv (d s len : Z) (st : machine) :
  inv d s len st -> 64 <= len ->
  inv (d + 64) (s + 64) (size_sub len 64) (sse_copy_64 d s st).
Proof.
  intros (Hl & Hd & Hs & Hfault & Halign & Hdone & Hframe) Hlen.
  unfold disjoint_buffers in Hdis.
  rewrite size_sub_small by lia.
  destruct Halign as [?|Halign]; [lia|].
  unfold sse_inv.
  split; [lia|]. split; [lia|]. split; [lia|]. split; [|split; [|split]].
  - unfold sse_copy_64, mm_load. cbv beta iota zeta.
    rewrite ?fault_mm_store, ?fault_aligned_access, Hfault. cbn [orb].
    clear_faults_16. reflexivity.
  - right. Z.div_mod_to_equations; lia.
  - intros x Hx. rewrite sse_copy_64_mem. subst d s. sse_mem Hdone Hframe.
  - intros x Hx. rewrite sse_copy_64_mem. subst d s. sse_mem Hdone Hframe.
Qed.

Lemma sse_copy_16_inv (d s len : Z) (st : machine) :
  inv d s len st -> 16 <= len ->
  inv (d + 16) (s + 16) (size_sub len 16) (sse_copy_16 d s st).
Proof.
  intros (Hl & Hd & Hs & Hfault & Halign & Hdone & Hframe) Hlen.
  unfold disjoint_buffers in Hdis.
  rewrite size_sub_small by lia.
  destruct Halign as [?|Halign]; [lia|].
  unfold sse_inv.
  split; [lia|]. split; [lia|]. split; [lia|]. split; [|split; [|split]].
  - unfold sse_copy_16, mm_load. cbv beta iota zeta.
    rewrite ?fault_mm_store, ?fault_aligned_access, Hfault. cbn [orb].
    clear_faults_16. reflexivity.
  - right. Z.div_mod_to_equations; lia.
  - intros x Hx. rewrite sse_copy_16_mem. subst d s. sse_mem Hdone Hframe.
  - intros x Hx. rewrite sse_copy_16_mem. subst d s. sse_mem Hdone Hframe.
Qed.

Lemma sse_loop_64_spec (fuel : nat) (d s len : Z) (st : machine) :
  inv d s len st -> (Z.to_nat len <= fuel)%nat ->
  exists d' s' len' st',
    sse_loop_64 fuel d s len st = (d', s', len', st') /\
    inv d' s' len' st' /\ len' < 64.
Proof.
  revert d s len st.
  induction fuel as [|fuel IH]; intros d s len st Hinv Hfuel.
  - exists d, s, len, st. split; [reflexivity|]. split; [exact Hinv|].
    destruct Hinv as (Hl & _). lia.
  - simpl. destruct (Z.geb_spec len 64) as [Hge|Hlt].
    + pose proof Hinv as (Hl & _).
      apply IH.
      * by apply sse_copy_64_inv.
      * rewrite size_sub_small by lia. lia.
    + exists d, s, len, st. split; [reflexivity|].
      split; [exact Hinv | lia].
Qed.

Lemma sse_loop_16_spec (fuel : nat) (d s len : Z) (st : machine) :
  inv d s len st -> (Z.to_nat len <= fuel)%nat ->
  exists d' s' len' st',
    sse_loop_16 fuel d s len st = (d', s', len', st') /\
    inv d' s' len' st' /\ len' < 16.
Proof.
  revert d s len st.
  induction fuel as [|fuel IH]; intros d s len st Hinv Hfuel.
  - exists d, s, len, st. split; [reflexivity|]. split; [exact Hinv|].
    destruct Hinv as (Hl & _). lia.
  - simpl. destruct (Z.geb_spec len 16) as [Hge|Hlt].
    + pose proof Hinv as (Hl & _).
      apply IH.
      * by apply sse_copy_16_inv.
      * rewrite size_sub_small by lia. lia.
    + exists d, s, len, st. split; [reflexivity|].
      split; [exact Hinv | lia].
Qed.

Lemma sse_copy_head_spec :
  exists d s len st,
    sse_copy_head dst src total st0 = (d, s, len, st) /\ inv d s len st.
Proof.
  unfold sse_copy_head. unfold disjoint_buffers in Hdis.
  rewrite !land_15, land_lnot_15.
  assert (Hmod : 0 <= src mod 16 < 16) by (apply Z.mod_pos_bound; lia).
  destruct (Z.eqb_spec (src mod 16) 0) as [Ha|Ha]; cbn [negb].
  - exists dst, src, total, st0. split; [reflexivity|].
    unfold sse_inv. split; [lia|]. split; [lia|]. split; [lia|].
    split; [exact Hfault0|]. split; [by right|].
    split; [intros x Hx; lia | reflexivity].
  - unfold mm_load. cbv beta iota zeta.
    eexists _, _, _, _. split; [reflexivity|].
    rewrite size_sub_small by lia.
    unfold sse_inv.
    split; [lia|]. split; [lia|]. split; [lia|]. split; [|split; [|split]].
    + cbn [m_fault write aligned_access]. rewrite Hfault0. cbn [orb].
      clear_faults_16. reflexivity.
    + destruct (Z.min_spec total (16 - src mod 16)) as [[? ->]|[? ->]].
      * left. lia.
      * right. Z.div_mod_to_equations; lia.
    + intros x Hx. cbn [m_mem write aligned_access].
      rewrite take_drop_load, store_load.
      rewrite Nat2Z.inj_min, Z2Nat.id, Nat2Z.inj_sub, Z2Nat.id by lia.
      change (Z.of_nat 16) with 16.
      rewrite (Z.min_l (Z.min total (16 - src mod 16))) by lia.
      rewrite decide_True by lia. f_equal. lia.
    + intros x Hx. cbn [m_mem write aligned_access].
      rewrite take_drop_load, store_load.
      rewrite Nat2Z.inj_min, Z2Nat.id, Nat2Z.inj_sub, Z2Nat.id by lia.
      change (Z.of_nat 16) with 16.
      rewrite (Z.min_l (Z.min total (16 - src mod 16))) by lia.
      by rewrite decide_False by lia.
Qed.

Lemma sse_memcpy_spec :
  m_fault (ucs_x86_memcpy_sse_movntdqa dst src total st0) = false /\
  forall x,
    m_mem (ucs_x86_memcpy_sse_movntdqa dst src total st0) x =
    copied dst src total mem0 x.
Proof.
  unfold ucs_x86_memcpy_sse_movntdqa. unfold disjoint_buffers in Hdis.
  destruct sse_copy_head_spec as (d1 & s1 & l1 & st1 & -> & Hinv1).
  destruct (sse_loop_64_spec (Z.to_nat l1) d1 s1 l1 st1 Hinv1 ltac:(lia))
    as (d2 & s2 & l2 & st2 & -> & Hinv2 & Hl2).
  destruct (sse_loop_16_spec (Z.to_nat l2) d2 s2 l2 st2 Hinv2 ltac:(lia))
    as (d3 & s3 & l3 & st3 & -> & Hinv3 & Hl3).
  destruct Hinv3 as (Hl & Hd & Hs & Hfault & Halign & Hdone & Hframe).
  destruct (Z.eqb_spec l3 0) as [Hz|Hnz]; cbn [negb].
  - split; [exact Hfault|]. intros x. unfold copied.
    case_decide; [apply Hdone; lia | by apply Hframe].
  - destruct Halign as [?|Halign]; [lia|].
    unfold mm_load. cbv beta iota zeta. split.
    + cbn [m_fault write aligned_access]. rewrite Hfault. cbn [orb].
      clear_faults_16. reflexivity.
    + intros x. cbn [m_mem write aligned_access].
      rewrite <- (drop_0 (load 16 _ _)), take_drop_load, store_load.
      rewrite Nat2Z.inj_min, Z2Nat.id by lia.
      change (Z.of_nat (16 - 0)) with 16.
      rewrite Z.min_l by lia. unfold copied. subst d3 s3.
      repeat case_decide; try lia.
      * rewrite Hframe by lia. f_equal. lia.
      * apply Hdone. lia.
      * by apply Hframe.
Qed.

End SseFacts.

(** X21.  [ucs_x86_memcpy_sse_movntdqa] copies: for buffers of [len] bytes
    that do not overlap, every byte of the destination buffer ends up equal
    to the byte the source buffer held at the same offset, no byte outside
    the destination buffer changes, although the routine loads whole 16-byte
    lines around the source buffer, and every streaming load is run on a
    16-byte aligned address, whatever the alignment of the source is. *)
Theorem memcpy_sse_movntdqa_correct (dst src len : Z) (st : machine) :
  0 <= len < 2 ^ 64 ->
  disjoint_buffers dst src len ->
  m_fault st = false ->
  m_fault (ucs_x86_memcpy_sse_movntdqa dst src len st) = false /\
  forall x,
    m_mem (ucs_x86_memcpy_sse_movntdqa dst src len st) x =
    copied dst src len (m_mem st) x.
Proof.
  intros Hlen Hdis Hfault. by apply sse_memcpy_spec.
Qed.

Lemma memcpy_sse_movntdqa_correct_witness :
  m_fault (ucs_x86_memcpy_sse_movntdqa 5003 21 300
             {| m_mem := sample_memory; m_fault := false |}) = false /\
  forall x,
    m_mem (ucs_x86_memcpy_sse_movntdqa 5003 21 300
             {| m_mem := sample_memory; m_fault := false |}) x =
    copied 5003 21 300 sample_memory x.
Proof.
  apply (memcpy_sse_movntdqa_correct 5003 21 300
           {| m_mem := sample_memory; m_fault := false |}).
  - lia.
  - unfold disjoint_buffers. lia.
  - reflexivity.
Defined.

(** A copy of 3 bytes from an address in the middle of a line: the head
    copy takes them all, and the byte after them is left alone. *)
Example memcpy_sse_movntdqa_3 :
  m_mem (ucs_x86_memcpy_sse_movntdqa 5003 21 3
           {| m_mem := sample_memory; m_fault := false |}) 5005
    = sample_memory 23 /\
  m_mem (ucs_x86_memcpy_sse_movntdqa 5003 21 3
           {| m_mem := sample_memory; m_fault := false |}) 5006
    = sample_memory 5006 /\
  m_fault (ucs_x86_memcpy_sse_movntdqa 5003 21 3
             {| m_mem := sample_memory; m_fault := false |}) = false.
Proof. vm_compute. repeat split. Qed.

(** ** CPU feature flags *)

Section CpuFlagFacts.

Variable flag_bit : cpu_flag_name -> Z.
Variable UCS_CPU_FLAG_UNKNOWN : Z.
Hypothesis flag_bit_nonneg : forall f, 0 <= flag_bit f.
Hypothesis flag_bit_inj : forall f g, flag_bit f = flag_bit g -> f = g.

Lemma testbit_or_flag (c : bool) (f : cpu_flag_name) (result j : Z) :
  Z.testbit (or_flag flag_bit c f result) j =
  Z.testbit result j || (c && (flag_bit f =? j)).
Proof.
  unfold or_flag, UCS_CPU_FLAG, UCS_BIT. destruct c; simpl.
  - rewrite Z.lor_spec, Z.shiftl_1_l. f_equal.
    apply Z.pow2_bits_eqb. apply flag_bit_nonneg.
  - by rewrite orb_false_r.
Qed.

Lemma test_mask_flag (result : Z) (f : cpu_flag_name) :
  test_mask result (UCS_CPU_FLAG flag_bit f) =
  Z.testbit result (flag_bit f).
Proof.
  unfold test_mask, UCS_CPU_FLAG, UCS_BIT. rewrite Z.shiftl_1_l.
  pose proof (flag_bit_nonneg f) as Hf.
  destruct (Z.testbit result (flag_bit f)) eqn:Hb.
  - apply negb_true_iff, Z.eqb_neq. intros H0.
    assert (Ht : Z.testbit (Z.land result (2 ^ flag_bit f)) (flag_bit f)
                 = true).
    { rewrite Z.land_spec, Hb, Z.pow2_bits_true by lia. reflexivity. }
    rewrite H0, Z.bits_0 in Ht. discriminate.
  - apply negb_false_iff, Z.eqb_eq. apply Z.bits_inj'. intros n Hn.
    rewrite Z.land_spec, Z.bits_0.
    destruct (Z.eq_dec (flag_bit f) n) as [<-|Hne].
    + by rewrite Hb.
    + rewrite (Z.pow2_bits_false _ _ Hne). apply andb_false_r.
Qed.

Lemma flag_bit_eqb (f g : cpu_flag_name) :
  (flag_bit f =? flag_bit g) = bool_decide (f = g).
Proof.
  destruct (decide (f = g)) as [->|Hne].
  - rewrite Z.eqb_refl. by rewrite bool_decide_eq_true_2.
  - rewrite bool_decide_eq_false_2 by exact Hne.
    apply Z.eqb_neq. intros H. by apply Hne, flag_bit_inj.
Qed.

Ltac decide_flags :=
  repeat match goal with
         | |- context [bool_decide (?a = ?b)] =>
             let v := eval vm_compute in (bool_decide (a = b)) in
             change (bool_decide (a = b)) with v
         end;
  rewrite ?andb_false_r, ?orb_false_r, ?andb_true_r.

Lemma cpu_flag_detect_facts (hw : cpu_hw) :
  (Z.testbit (cpu_flag_detect flag_bit hw) (flag_bit AVX2) = true ->
   Z.testbit (cpu_flag_detect flag_bit hw) (flag_bit AVX) = true /\
   7 <= r_eax (cpuid hw X86_CPUID_GET_BASE_VALUE)) /\
  Z.testbit (cpu_flag_detect flag_bit hw) (flag_bit MMX2) =
  Z.testbit (cpu_flag_detect flag_bit hw) (flag_bit SSE) /\
  (r_eax (cpuid hw X86_CPUID_GET_BASE_VALUE) < 1 ->
   cpu_flag_detect flag_bit hw = 0).
Proof.
  unfold cpu_flag_detect. cbv zeta.
  set (base := r_eax (cpuid hw X86_CPUID_GET_BASE_VALUE)).
  match goal with
  | |- context [if base >=? 7 then _ else ?r] => set (r1 := r)
  end.
  assert (Havx2 : Z.testbit r1 (flag_bit AVX2) = false).
  { subst r1.
    repeat match goal with
           | |- context [if ?c then _ else _] => destruct c
           end;
      rewrite ?testbit_or_flag, ?flag_bit_eqb, ?Z.bits_0;
      by decide_flags. }
  assert (Hmmx : Z.testbit r1 (flag_bit MMX2) = Z.testbit r1 (flag_bit SSE)).
  { subst r1.
    repeat match goal with
           | |- context [if ?c then _ else _] => destruct c
           end;
      rewrite ?testbit_or_flag, ?flag_bit_eqb, ?Z.bits_0;
      by decide_flags. }
  assert (Hzero : base < 1 -> r1 = 0).
  { intros Hb. subst r1. by destruct (Z.geb_spec base 1); [lia|]. }
  clearbody r1.
  destruct (Z.geb_spec base 7) as [H7|H7].
  - rewrite !testbit_or_flag, !flag_bit_eqb, test_mask_flag, Havx2, Hmmx.
    decide_flags. simpl.
    split; [|split; [reflexivity | lia]].
    intros H. apply andb_prop in H as [-> _]. by split; [|lia].
  - rewrite Havx2, Hmmx. by split; [|split].
Qed.

End CpuFlagFacts.

(** X22.  On its first call [ucs_arch_get_cpu_flag] computes the flags from
    [cpuid], provided the flag constants are distinct single bits.  The
    result has the AVX2 bit only together with the AVX bit and only when
    the base value of [cpuid] is at least 7; it has the MMX2 bit exactly
    when it has the SSE bit, both being read from bit 25 of [edx]; and it
    is 0 when the base value is below 1.  The computed value is stored in
    the static variable. *)
Theorem cpu_flag_first_call (flag_bit : cpu_flag_name -> Z)
    (UCS_CPU_FLAG_UNKNOWN : Z) (hw : cpu_hw) :
  (forall f, 0 <= flag_bit f) ->
  (forall f g, flag_bit f = flag_bit g -> f = g) ->
  let r := ucs_arch_get_cpu_flag flag_bit UCS_CPU_FLAG_UNKNOWN hw
             UCS_CPU_FLAG_UNKNOWN in
  r.2 = r.1 /\
  (Z.testbit r.1 (flag_bit AVX2) = true ->
   Z.testbit r.1 (flag_bit AVX) = true /\
   7 <= r_eax (cpuid hw X86_CPUID_GET_BASE_VALUE)) /\
  Z.testbit r.1 (flag_bit MMX2) = Z.testbit r.1 (flag_bit SSE) /\
  (r_eax (cpuid hw X86_CPUID_GET_BASE_VALUE) < 1 -> r.1 = 0).
Proof.
  intros Hnn Hinj. unfold ucs_arch_get_cpu_flag.
  rewrite Z.eqb_refl. cbn [fst snd]. split; [reflexivity|].
  by apply cpu_flag_detect_facts.
Qed.

(** A processor that reports every feature, with the flags at bits 0 to 10
    and -1 for the unknown value. *)
Lemma cpu_flag_first_call_witness :
  (ucs_arch_get_cpu_flag sample_flag_bit (-1) sample_cpu_hw (-1)).2 =
  (ucs_arch_get_cpu_flag sample_flag_bit (-1) sample_cpu_hw (-1)).1 /\
  (Z.testbit
     (ucs_arch_get_cpu_flag sample_flag_bit (-1) sample_cpu_hw (-1)).1 10
   = true ->
   Z.testbit
     (ucs_arch_get_cpu_flag sample_flag_bit (-1) sample_cpu_hw (-1)).1 9
   = true /\ 7 <= 13) /\
  Z.testbit
    (ucs_arch_get_cpu_flag sample_flag_bit (-1) sample_cpu_hw (-1)).1 2 =
  Z.testbit
    (ucs_arch_get_cpu_flag sample_flag_bit (-1) sample_cpu_hw (-1)).1 3 /\
  (13 < 1 ->
   (ucs_arch_get_cpu_flag sample_flag_bit (-1) sample_cpu_hw (-1)).1 = 0).
Proof.
  apply (cpu_flag_first_call sample_flag_bit (-1) sample_cpu_hw).
  - intros f. destruct f; simpl; lia.
  - intros f g. destruct f, g; simpl; intros H; (reflexivity || lia).
Defined.

Example cpu_flag_all_features :
  (ucs_arch_get_cpu_flag sample_flag_bit (-1) sample_cpu_hw (-1)).1 = 0x7ff.
Proof. reflexivity. Qed.

Example cpu_flag_cached :
  ucs_arch_get_cpu_flag sample_flag_bit (-1) sample_cpu_hw 0x3 = (0x3, 0x3).
Proof. reflexivity. Qed.
